(** * The task board of the user dashboard

    A shallow embedding of [src/pages/UserPages/Dashboard.jsx]: the
    partition of the stored tasks into the three status columns, the
    drag-and-drop move between columns with its write to [localStorage],
    the deadline alerts with the dates they are computed from, the status
    filter, the chart and the notes; and of the authentication context
    with the part of [utils/api.js] it calls.  The markup of the
    components is left out, but for the identifiers the board hands to
    its columns and cards.

    JavaScript values are embedded as follows.
    - A task is a record with the fields the component reads ([id],
      [title], [progress], [deadline]); [progress] is an integer.
    - An identifier (a task id, the id of a droppable) is an integer or a
      string, compared with [===].
    - The [tasks] state is a JavaScript object: an association list kept
      in the order in which [Object.keys] enumerates it.
    - [localStorage] is a finite map from keys to texts, and [JSON.parse]
      and [JSON.stringify] are a parser and a printer of JSON texts.
    - A computation that can throw returns a [Completion].
    - The component state and what the component acts on ([localStorage],
      the toasts, the alert sound) are passed along as one [State]; an
      update queued with a state setter is applied when the handler that
      queued it is done.
    - A time value is an integer, the milliseconds since the epoch; the
      time zone of the browser is a function that gives the offset of
      local time.  [checkDeadlines] is the scan with the two dates as
      parameters; [checkDeadlinesAt] computes them from the clock. *)

From Stdlib Require Import ZArith Lia Ascii String.
From stdpp Require Import base option list strings gmap pretty.

(** ** JavaScript basics *)

Module JS.

Inductive Error := SyntaxError | TypeError | RangeError.

Inductive Completion (A : Type) :=
| Normal (a : A)
| Throw (e : Error).
Arguments Normal {A} a.
Arguments Throw {A} e.

#[global] Instance Completion_ret : MRet Completion := @Normal.
#[global] Instance Completion_bind : MBind Completion :=
  λ A B f c, match c with Normal a => f a | Throw e => Throw e end.

(** Reading through [undefined] ([undefined.find], [...undefined])
    throws a [TypeError]. *)
Definition defined {A} (o : option A) : Completion A :=
  match o with Some a => Normal a | None => Throw TypeError end.

(** The values used as identifiers: numbers and strings. *)
Inductive Id := IdNum (n : Z) | IdStr (s : string).

#[global] Instance Id_eq_dec : EqDecision Id.
Proof. solve_decision. Defined.

(** [ToString], as applied to a property key. *)
Definition ToString (v : Id) : string :=
  match v with IdNum n => pretty n | IdStr s => s end.

(** [ToBoolean]: [0] and the empty string are falsy. *)
Definition truthy (v : Id) : bool :=
  match v with
  | IdNum n => bool_decide (n ≠ 0%Z)
  | IdStr s => bool_decide (s ≠ EmptyString)
  end.

(** *** Arrays *)

Definition Array_find {A} (P : A → Prop) `{!∀ x, Decision (P x)}
    (l : list A) : option A :=
  snd <$> list_find P l.

Definition Array_some {A} (P : A → Prop) `{!∀ x, Decision (P x)}
    (l : list A) : bool :=
  bool_decide (Exists P l).

(** *** Objects

    Own enumerable string-keyed properties, in enumeration order:
    array-index keys first, in ascending order, then the other keys in
    the order of their creation. *)

Definition Obj (V : Type) := list (string * V).

Definition digit_val (c : ascii) : option N :=
  let n := N_of_ascii c in
  if decide (48 ≤ n ∧ n ≤ 57)%N then Some (n - 48)%N else None.

Fixpoint digits_val (acc : N) (s : string) : option N :=
  match s with
  | EmptyString => Some acc
  | String c s' => d ← digit_val c; digits_val (10 * acc + d)%N s'
  end.

(** The canonical numeric strings below [2^32 - 1]. *)
Definition array_index (k : string) : option N :=
  match k with
  | EmptyString => None
  | _ =>
      n ← digits_val 0 k;
      if decide (pretty n = k ∧ (n < 2 ^ 32 - 1)%N) then Some n else None
  end.

Section Obj.
Context {V : Type}.

Definition Object_keys (o : Obj V) : list string := o.*1.

Definition Object_entries (o : Obj V) : list (string * V) := o.

(** The property [k] that [o] has of its own, [None] when it has none:
    there [o[k]] is [undefined], unless [k] is a name that [o]
    inherits. *)
Definition obj_get (o : Obj V) (k : string) : option V :=
  snd <$> Array_find (λ kv, kv.1 = k) o.

Fixpoint obj_replace (k : string) (v : V) (o : Obj V) : Obj V :=
  match o with
  | [] => []
  | (k', v') :: o' =>
      if decide (k' = k) then (k, v) :: o' else (k', v') :: obj_replace k v o'
  end.

Fixpoint obj_insert_index (n : N) (k : string) (v : V) (o : Obj V) : Obj V :=
  match o with
  | [] => [(k, v)]
  | (k', v') :: o' =>
      match array_index k' with
      | Some n' =>
          if decide (n' < n)%N then (k', v') :: obj_insert_index n k v o'
          else (k, v) :: o
      | None => (k, v) :: o
      end
  end.

(** [o[k] = v]: an existing property keeps its place. *)
Definition obj_set (o : Obj V) (k : string) (v : V) : Obj V :=
  match obj_get o k with
  | Some _ => obj_replace k v o
  | None =>
      match array_index k with
      | Some n => obj_insert_index n k v o
      | None => o ++ [(k, v)]
      end
  end.

Definition Object_fromEntries (entries : list (string * V)) : Obj V :=
  fold_left (λ o kv, obj_set o kv.1 kv.2) entries [].
End Obj.

(** The names that every object made by an object literal inherits from
    [Object.prototype].  Reading one of them off an object that has no
    property of its own by that name yields a function, or for
    [__proto__] the prototype itself: a truthy value that cannot be
    iterated. *)
Definition Object_prototype : list string :=
  ["constructor"; "hasOwnProperty"; "isPrototypeOf"; "propertyIsEnumerable";
   "toLocaleString"; "toString"; "valueOf"; "__proto__";
   "__defineGetter__"; "__defineSetter__"; "__lookupGetter__";
   "__lookupSetter__"].

End JS.
Export JS.

(** ** JSON texts

    [JSON.parse] as a scanner followed by a pushdown parser, both by
    structural recursion on their input, and [JSON.stringify] as a
    printer.  A number is kept as the exact decimal [m * 10 ^ e] that
    its literal denotes.  A string is a sequence of bytes; a [\uXXXX]
    escape above the ASCII range is kept as the bytes of its code unit. *)

Module JSON.

#[warnings="-register-all"] Inductive json :=
| JNull
| JBool (b : bool)
| JNum (m e : Z)
| JStr (s : string)
| JArr (elems : list json)
| JObj (props : Obj json).

Inductive token :=
| TLBrace | TRBrace | TLBrack | TRBrack | TColon | TComma
| TString (s : string)
| TNumber (m e : Z)
| TTrue | TFalse | TNull.

(** *** Scanner *)

(** Where the scanner is inside a number literal. *)
Inductive num_state :=
| NMinus   (* after the sign: a digit must follow *)
| NZero    (* integer part 0 *)
| NInt     (* integer part, first digit 1-9 *)
| NDot     (* after the point: a digit must follow *)
| NFrac    (* fraction digits *)
| NE       (* after e or E: a sign or a digit must follow *)
| NESign   (* after the sign of the exponent: a digit must follow *)
| NExp.    (* exponent digits *)

Record num_acc := NumAcc {
  neg : bool;       (* a leading minus sign *)
  mant : Z;         (* the digits of integer part and fraction *)
  fdigits : Z;      (* how many of them are fraction digits *)
  eneg : bool;      (* a minus sign in the exponent *)
  expo : Z          (* the digits of the exponent *)
}.

Inductive lex_state :=
| LStart
| LLit (rest : string) (t : token)
| LStr (acc : list ascii)
| LEsc (acc : list ascii)
| LHex (acc : list ascii) (k : nat) (cu : N)
| LNum (st : num_state) (a : num_acc).

Definition code (c : ascii) : N := N_of_ascii c.

Definition is_ws (c : ascii) : bool :=
  bool_decide (code c = 32 ∨ code c = 9 ∨ code c = 10 ∨ code c = 13)%N.

Definition dec_digit (c : ascii) : option Z := Z.of_N <$> digit_val c.

Definition hex_digit (c : ascii) : option N :=
  let n := code c in
  if decide (48 ≤ n ∧ n ≤ 57)%N then Some (n - 48)%N
  else if decide (97 ≤ n ∧ n ≤ 102)%N then Some (n - 87)%N
  else if decide (65 ≤ n ∧ n ≤ 70)%N then Some (n - 55)%N
  else None.

(** The bytes that stand for the code unit of a [\uXXXX] escape. *)
Definition code_unit_bytes (cu : N) : list ascii :=
  if decide (cu < 128)%N then [ascii_of_N cu]
  else if decide (cu < 2048)%N then
    [ascii_of_N (192 + cu / 64); ascii_of_N (128 + cu mod 64)]
  else
    [ascii_of_N (224 + cu / 4096); ascii_of_N (128 + (cu / 64) mod 64);
     ascii_of_N (128 + cu mod 64)].

Definition num_token (a : num_acc) : token :=
  TNumber (if neg a then - mant a else mant a)%Z
          ((if eneg a then - expo a else expo a) - fdigits a)%Z.

(** The states in which a number literal is complete. *)
Definition num_final (st : num_state) : bool :=
  match st with NZero | NInt | NFrac | NExp => true | _ => false end.

Definition push_digit (a : num_acc) (d : Z) (frac : bool) : num_acc :=
  NumAcc (neg a) (10 * mant a + d) (if frac then fdigits a + 1 else fdigits a)
         (eneg a) (expo a).

Definition push_exp (a : num_acc) (d : Z) : num_acc :=
  NumAcc (neg a) (mant a) (fdigits a) (eneg a) (10 * expo a + d).

Definition set_eneg (a : num_acc) : num_acc :=
  NumAcc (neg a) (mant a) (fdigits a) true (expo a).

(** One character inside a number; [None] when the character does not
    continue the literal. *)
Definition num_step (st : num_state) (a : num_acc) (c : ascii)
    : option (num_state * num_acc) :=
  let on c' := bool_decide (code c = c') in
  match st, dec_digit c with
  | NMinus, Some d => Some (if decide (d = 0%Z) then NZero else NInt, push_digit a d false)
  | NInt, Some d => Some (NInt, push_digit a d false)
  | NDot, Some d | NFrac, Some d => Some (NFrac, push_digit a d true)
  | NE, Some d | NESign, Some d | NExp, Some d => Some (NExp, push_exp a d)
  | NZero, Some _ => None
  | _, None =>
      match st with
      | NZero | NInt =>
          if on 46%N then Some (NDot, a)
          else if on 101%N || on 69%N then Some (NE, a) else None
      | NFrac => if on 101%N || on 69%N then Some (NE, a) else None
      | NE =>
          if on 43%N then Some (NESign, a)
          else if on 45%N then Some (NESign, set_eneg a) else None
      | _ => None
      end
  end.

(** One character between two tokens. *)
Definition start_step (c : ascii) (acc : list token)
    : Completion (lex_state * list token) :=
  let on c' := bool_decide (code c = c') in
  if is_ws c then Normal (LStart, acc)
  else if on 123%N then Normal (LStart, TLBrace :: acc)
  else if on 125%N then Normal (LStart, TRBrace :: acc)
  else if on 91%N then Normal (LStart, TLBrack :: acc)
  else if on 93%N then Normal (LStart, TRBrack :: acc)
  else if on 58%N then Normal (LStart, TColon :: acc)
  else if on 44%N then Normal (LStart, TComma :: acc)
  else if on 34%N then Normal (LStr [], acc)
  else if on 116%N then Normal (LLit "rue" TTrue, acc)
  else if on 102%N then Normal (LLit "alse" TFalse, acc)
  else if on 110%N then Normal (LLit "ull" TNull, acc)
  else if on 45%N then Normal (LNum NMinus (NumAcc true 0 0 false 0), acc)
  else
    match dec_digit c with
    | Some d =>
        Normal (LNum (if decide (d = 0%Z) then NZero else NInt)
                     (NumAcc false d 0 false 0), acc)
    | None => Throw SyntaxError
    end.

Definition lex_step (st : lex_state) (acc : list token) (c : ascii)
    : Completion (lex_state * list token) :=
  let on c' := bool_decide (code c = c') in
  match st with
  | LStart => start_step c acc
  | LLit rest t =>
      match rest with
      | String r rest' =>
          if decide (c = r) then
            match rest' with
            | EmptyString => Normal (LStart, t :: acc)
            | _ => Normal (LLit rest' t, acc)
            end
          else Throw SyntaxError
      | EmptyString => Throw SyntaxError
      end
  | LStr s =>
      if on 34%N then Normal (LStart, TString (string_of_list_ascii (rev s)) :: acc)
      else if on 92%N then Normal (LEsc s, acc)
      else if decide (code c < 32)%N then Throw SyntaxError
      else Normal (LStr (c :: s), acc)
  | LEsc s =>
      if on 34%N || on 92%N || on 47%N then Normal (LStr (c :: s), acc)
      else if on 98%N then Normal (LStr (ascii_of_N 8 :: s), acc)
      else if on 102%N then Normal (LStr (ascii_of_N 12 :: s), acc)
      else if on 110%N then Normal (LStr (ascii_of_N 10 :: s), acc)
      else if on 114%N then Normal (LStr (ascii_of_N 13 :: s), acc)
      else if on 116%N then Normal (LStr (ascii_of_N 9 :: s), acc)
      else if on 117%N then Normal (LHex s 0 0, acc)
      else Throw SyntaxError
  | LHex s k cu =>
      match hex_digit c with
      | Some d =>
          let cu' := (16 * cu + d)%N in
          if decide (k = 3) then Normal (LStr (rev (code_unit_bytes cu') ++ s), acc)
          else Normal (LHex s (S k) cu', acc)
      | None => Throw SyntaxError
      end
  | LNum st a =>
      match num_step st a c with
      | Some (st', a') => Normal (LNum st' a', acc)
      | None =>
          if num_final st then start_step c (num_token a :: acc)
          else Throw SyntaxError
      end
  end.

Definition lex_end (st : lex_state) (acc : list token)
    : Completion (list token) :=
  match st with
  | LStart => Normal (rev acc)
  | LNum st a =>
      if num_final st then Normal (rev (num_token a :: acc))
      else Throw SyntaxError
  | _ => Throw SyntaxError
  end.

Fixpoint lex (text : string) (st : lex_state) (acc : list token)
    : Completion (list token) :=
  match text with
  | EmptyString => lex_end st acc
  | String c text' =>
      match lex_step st acc c with
      | Normal (st', acc') => lex text' st' acc'
      | Throw e => Throw e
      end
  end.

(** *** Parser *)

(** An array or an object that is being read. *)
Inductive frame :=
| InArr (done : list json)                (* elements read, last first *)
| InObj (o : Obj json) (key : string).    (* properties read, pending key *)

Inductive parse_state :=
| PValue (stack : list frame)                   (* a value must follow *)
| PArrFirst (stack : list frame)                (* after [ *)
| PArrNext (stack : list frame) (done : list json)
| PObjFirst (stack : list frame)                (* after { *)
| PObjNext (stack : list frame) (o : Obj json)
| PKey (stack : list frame) (o : Obj json)      (* after , in an object *)
| PColon (stack : list frame) (o : Obj json) (key : string)
| PDone (v : json).

(** A value is complete: it goes to the enclosing array or object. *)
Definition push_value (stack : list frame) (v : json) : parse_state :=
  match stack with
  | [] => PDone v
  | InArr done :: stack' => PArrNext stack' (v :: done)
  | InObj o key :: stack' => PObjNext stack' (obj_set o key v)
  end.

Definition value_step (stack : list frame) (t : token)
    : Completion parse_state :=
  match t with
  | TNull => Normal (push_value stack JNull)
  | TTrue => Normal (push_value stack (JBool true))
  | TFalse => Normal (push_value stack (JBool false))
  | TNumber m e => Normal (push_value stack (JNum m e))
  | TString s => Normal (push_value stack (JStr s))
  | TLBrack => Normal (PArrFirst stack)
  | TLBrace => Normal (PObjFirst stack)
  | _ => Throw SyntaxError
  end.

Definition parse_step (st : parse_state) (t : token)
    : Completion parse_state :=
  match st, t with
  | PValue stack, _ => value_step stack t
  | PArrFirst stack, TRBrack => Normal (push_value stack (JArr []))
  | PArrFirst stack, _ => value_step (InArr [] :: stack) t
  | PArrNext stack done, TComma => Normal (PValue (InArr done :: stack))
  | PArrNext stack done, TRBrack => Normal (push_value stack (JArr (rev done)))
  | PObjFirst stack, TRBrace => Normal (push_value stack (JObj []))
  | PObjFirst stack, TString key => Normal (PColon stack [] key)
  | PObjNext stack o, TComma => Normal (PKey stack o)
  | PObjNext stack o, TRBrace => Normal (push_value stack (JObj o))
  | PKey stack o, TString key => Normal (PColon stack o key)
  | PColon stack o key, TColon => Normal (PValue (InObj o key :: stack))
  | _, _ => Throw SyntaxError
  end.

Fixpoint parse_tokens (ts : list token) (st : parse_state)
    : Completion json :=
  match ts with
  | [] => match st with PDone v => Normal v | _ => Throw SyntaxError end
  | t :: ts' =>
      match parse_step st t with
      | Normal st' => parse_tokens ts' st'
      | Throw e => Throw e
      end
  end.

(** [JSON.parse(text)] *)
Definition parse (text : string) : Completion json :=
  ts ← lex text LStart []; parse_tokens ts (PValue []).

(** *** Printer *)

Definition dquote : ascii := ascii_of_N 34.
Definition backslash : ascii := ascii_of_N 92.

Definition hex_char (n : N) : ascii :=
  ascii_of_N (if decide (n < 10)%N then 48 + n else 87 + n).

(** The characters [JSON.stringify] writes for one character of a
    string: the quote, the backslash and the control characters are
    escaped. *)
Definition escape (c : ascii) : list ascii :=
  let n := code c in
  if decide (n = 34 ∨ n = 92)%N then [backslash; c]
  else if decide (n = 8)%N then [backslash; "b"%char]
  else if decide (n = 12)%N then [backslash; "f"%char]
  else if decide (n = 10)%N then [backslash; "n"%char]
  else if decide (n = 13)%N then [backslash; "r"%char]
  else if decide (n = 9)%N then [backslash; "t"%char]
  else if decide (n < 32)%N then
    [backslash; "u"%char; "0"%char; "0"%char; hex_char (n / 16); hex_char (n mod 16)]
  else [c].

Definition quote (s : string) : string :=
  string_of_list_ascii
    (dquote :: flat_map escape (list_ascii_of_string s) ++ [dquote]).

(** The decimal [m * 10 ^ e], written without an exponent. *)
Definition print_number (m e : Z) : string :=
  if decide (0 ≤ e)%Z then pretty (m * 10 ^ e)%Z
  else
    let k := Z.to_nat (- e) in
    let ds := list_ascii_of_string (pretty (Z.abs m)) in
    let ds := replicate (S k - length ds) "0"%char ++ ds in
    let n := (length ds - k)%nat in
    string_of_list_ascii
      ((if decide (m < 0)%Z then ["-"%char] else []) ++
       take n ds ++ "."%char :: drop n ds).

(** [JSON.stringify(v)] *)
Fixpoint stringify (v : json) : string :=
  match v with
  | JNull => "null"
  | JBool b => if b then "true" else "false"
  | JNum m e => print_number m e
  | JStr s => quote s
  | JArr elems => "[" +:+ String.concat "," (map stringify elems) +:+ "]"
  | JObj props =>
      "{" +:+
      String.concat ","
        (map (λ kv, quote (fst kv) +:+ ":" +:+ stringify (snd kv)) props) +:+
      "}"
  end.

(** [ToBoolean]: [null], [false], the empty string and a number that is
    zero are falsy.  A literal denotes zero when its digits are zero or
    when it is so small that it rounds to zero (at most [2 ^ -1075]). *)
Definition json_truthy (v : json) : bool :=
  match v with
  | JNull => false
  | JBool b => b
  | JNum m e =>
      bool_decide (m ≠ 0 ∧ ¬ (e < 0 ∧ Z.abs m * 2 ^ 1075 ≤ 10 ^ (- e)))%Z
  | JStr s => bool_decide (s ≠ EmptyString)
  | JArr _ | JObj _ => true
  end.

(** The integer a number literal denotes, if it denotes one. *)
Definition json_integer (m e : Z) : option Z :=
  if decide (0 ≤ e)%Z then Some (m * 10 ^ e)%Z
  else if decide (m mod 10 ^ (- e) = 0)%Z then Some (m / 10 ^ (- e))%Z
  else None.

End JSON.
Export JSON.

(** ** Tasks *)

Module Task.
Record t := mk {
  id : Id;
  title : string;
  progress : Z;
  deadline : option string   (* an ISO calendar date, when present *)
}.
End Task.

#[global] Instance Task_eq_dec : EqDecision Task.t.
Proof. solve_decision. Defined.

(** The JSON object that stands for a task in [localStorage], and back. *)
Definition id_to_json (i : Id) : json :=
  match i with IdNum n => JNum n 0 | IdStr s => JStr s end.

Definition task_to_json (task : Task.t) : json :=
  JObj ([("id", id_to_json (Task.id task));
         ("title", JStr (Task.title task));
         ("progress", JNum (Task.progress task) 0)] ++
        match Task.deadline task with
        | Some d => [("deadline", JStr d)]
        | None => []
        end).

Definition id_of_json (v : json) : option Id :=
  match v with
  | JNum m e => IdNum <$> json_integer m e
  | JStr s => Some (IdStr s)
  | _ => None
  end.

Definition task_of_json (v : json) : option Task.t :=
  match v with
  | JObj o =>
      i ← obj_get o "id" ≫= id_of_json;
      ttl ← match obj_get o "title" with Some (JStr s) => Some s | _ => None end;
      p ← match obj_get o "progress" with
          | Some (JNum m e) => json_integer m e
          | _ => None
          end;
      d ← match obj_get o "deadline" with
          | None | Some JNull => Some None
          | Some (JStr d) => Some (Some d)
          | _ => None
          end;
      Some (Task.mk i ttl p d)
  | _ => None
  end.


(** ** The tokens of stored tasks *)

(** The scanner on a prefix of a text. *)
Fixpoint lex_run (text : string) (x : lex_state * list token)
    : Completion (lex_state * list token) :=
  match text with
  | EmptyString => Normal x
  | String c text' =>
      match lex_step x.1 x.2 c with
      | Normal x' => lex_run text' x'
      | Throw e => Throw e
      end
  end.

(** The tokens read so far, a number that is complete included. *)
Definition flushed (x : lex_state * list token) : list token :=
  match x.1 with
  | LNum _ a => num_token a :: x.2
  | _ => x.2
  end.

(** Between two tokens, or at the end of a number. *)
Definition ready (x : lex_state * list token) : Prop :=
  match x.1 with
  | LStart => True
  | LNum st _ => num_final st = true
  | _ => False
  end.

(** A character that starts a token, after a complete number. *)
Definition delimiter (c : ascii) : Prop :=
  code c = 34%N ∨ code c = 44%N ∨ code c = 58%N ∨ code c = 91%N ∨
  code c = 93%N ∨ code c = 123%N ∨ code c = 125%N.


Definition id_token (i : Id) : token :=
  match i with IdNum n => TNumber n 0 | IdStr s => TString s end.

(** The tokens of the text of a task. *)
Definition task_tokens (task : Task.t) : list token :=
  [TLBrace; TString "id"; TColon; id_token (Task.id task); TComma;
   TString "title"; TColon; TString (Task.title task); TComma;
   TString "progress"; TColon; TNumber (Task.progress task) 0] ++
  match Task.deadline task with
  | Some d => [TComma; TString "deadline"; TColon; TString d]
  | None => []
  end ++ [TRBrace].

(** The tokens of the texts of tasks, separated by commas. *)
Fixpoint tasks_tokens (l : list Task.t) : list token :=
  match l with
  | [] => []
  | [task] => task_tokens task
  | task :: l' => task_tokens task ++ TComma :: tasks_tokens l'
  end.

(** ** The dashboard component *)

Module Dashboard.

(** The [tasks] state: column name to the tasks of the column. *)
Definition Board := Obj (list Task.t).

Record Toast := { message : string; bgClass : string }.

(** The state of the component together with what it acts on: the
    browser's [localStorage], the toasts shown and the number of times
    the alert sound was played. *)
Record State := {
  tasks : Board;
  taskStatusFilter : string;
  localStorage : gmap string string;
  toasts : list Toast;
  plays : nat
}.

Definition DEFAULT_FILTER_OPTION : string := "all".

Definition setTasks (b : Board) (st : State) : State :=
  {| tasks := b; taskStatusFilter := taskStatusFilter st;
     localStorage := localStorage st; toasts := toasts st; plays := plays st |}.

Definition setTaskStatusFilter (f : string) (st : State) : State :=
  {| tasks := tasks st; taskStatusFilter := f;
     localStorage := localStorage st; toasts := toasts st; plays := plays st |}.

Definition setItem (k v : string) (st : State) : State :=
  {| tasks := tasks st; taskStatusFilter := taskStatusFilter st;
     localStorage := <[k := v]> (localStorage st);
     toasts := toasts st; plays := plays st |}.

(** [localStorage.getItem(k)], [None] standing for [null]. *)
Definition getItem (ls : gmap string string) (k : string) : option string :=
  ls !! k.

(** The object literal with the three columns. *)
Definition columns (toDo inProgress completed : list Task.t) : Board :=
  obj_set (obj_set (obj_set [] "To Do" toDo) "In Progress" inProgress)
          "Completed" completed.

(** [useState] of the component. *)
Definition initial (ls : gmap string string) : State :=
  {| tasks := columns [] [] []; taskStatusFilter := DEFAULT_FILTER_OPTION;
     localStorage := ls; toasts := []; plays := 0 |}.

(** *** Loading the tasks *)

(** [JSON.parse(localStorage.getItem("tasks")) || []]: [JSON.parse]
    reads [null] as the text [null]. *)
Definition loadAll (ls : gmap string string) : Completion json :=
  v ← JSON.parse (default "null" (getItem ls "tasks"));
  mret (if json_truthy v then v else JArr []).

Definition categorizedTasks (storedTasks : list Task.t) : Board :=
  columns
    (filter (λ task, Task.progress task ≤ 40)%Z storedTasks)
    (filter (λ task, Task.progress task > 40 ∧ Task.progress task ≤ 80)%Z
            storedTasks)
    (filter (λ task, Task.progress task > 80)%Z storedTasks).

(** *** Deadline alerts *)

Definition showNotification (msg cls : string) (st : State) : State :=
  {| tasks := tasks st; taskStatusFilter := taskStatusFilter st;
     localStorage := localStorage st;
     toasts := toasts st ++ [{| message := msg; bgClass := cls |}];
     plays := S (plays st) |}.

(** A title between double quotes, as the template literals have it. *)
Definition quoted (s : string) : string :=
  String dquote s +:+ String dquote EmptyString.

(** [checkDeadlines(tasks)].  [today] and [tomorrowStr] are the two
    dates the function first reads off the clock, as ISO strings. *)
Definition checkDeadlines (today tomorrowStr : string)
    (tasks : list Task.t) (st : State) : State :=
  fold_left
    (λ st task,
       if decide (Task.deadline task = Some today) then
         showNotification ("🚨 Task Due Today: " +:+ quoted (Task.title task))
                          "bg-red-500 text-white" st
       else if decide (Task.deadline task = Some tomorrowStr) then
         showNotification ("⏳ Task Due Tomorrow: " +:+ quoted (Task.title task))
                          "bg-yellow-500 text-black" st
       else st)
    tasks st.

(** The effect that runs when the component is mounted.  The stored
    array is read as tasks; [None] is returned for an array with an
    element that is not a task of the data model above. *)
Definition loadTasks (today tomorrowStr : string) (st : State)
    : Completion (option State) :=
  stored ← loadAll (localStorage st);
  match stored with
  | JArr elems =>
      mret (storedTasks ← mapM task_of_json elems;
            Some (checkDeadlines today tomorrowStr storedTasks
                    (setTasks (categorizedTasks storedTasks) st)))
  | _ => Throw TypeError     (* storedTasks.filter is not a function *)
  end.

(** *** Drag and drop *)

(** The event of [onDragEnd]: [active.id], and [over.id] unless [over]
    is [null]. *)
Record DragEndEvent := { active : Id; over : option Id }.

(** [Object.keys(tasks).find(column => tasks[column].some(task =>
    task.id === i))] *)
Definition columnOf (tasks : Board) (i : Id) : option string :=
  Array_find
    (λ column, Array_some (λ task, Task.id task = i)
                          (default [] (obj_get tasks column)))
    (Object_keys tasks).

(** [columnOf(tasks, over.id) || over.id] *)
Definition targetColumnOf (tasks : Board) (over_id : Id) : Id :=
  match columnOf tasks over_id with
  | Some column => if truthy (IdStr column) then IdStr column else over_id
  | None => over_id
  end.

(** [...(updatedTasks[targetColumn] || [])]: the tasks of the target
    column, none when the board has no such column.  A name the board
    does not have is looked up in [Object.prototype]: what is found there
    is truthy, so that [|| []] does not replace it, and spreading it
    throws a [TypeError]. *)
Definition targetTasks (updatedTasks : Board) (targetColumn : Id)
    : Completion (list Task.t) :=
  match obj_get updatedTasks (ToString targetColumn) with
  | Some target => Normal target
  | None =>
      if bool_decide (ToString targetColumn ∈ Object_prototype)
      then Throw TypeError else Normal []
  end.

(** The function handed to [setTasks].  A column never holds
    [undefined]: where [find] returns it, the entry would fail the next
    rendering, which reads [task.id]. *)
Definition moveTask (sourceColumn : string) (targetColumn : Id)
    (active_id : Id) (prevTasks : Board) : Completion Board :=
  let updatedTasks := prevTasks in
  source ← defined (obj_get updatedTasks sourceColumn);
  movedTask ← defined (Array_find (λ task, Task.id task = active_id) source);
  let updatedTasks :=
    obj_set updatedTasks sourceColumn
            (filter (λ task, Task.id task ≠ active_id) source) in
  target ← targetTasks updatedTasks targetColumn;
  mret (obj_set updatedTasks (ToString targetColumn) (target ++ [movedTask])).

(** [[...tasks["To Do"], ...tasks["In Progress"], ...tasks["Completed"]]] *)
Definition flatTasks (tasks : Board) : Completion (list Task.t) :=
  toDo ← defined (obj_get tasks "To Do");
  inProgress ← defined (obj_get tasks "In Progress");
  completed ← defined (obj_get tasks "Completed");
  mret (toDo ++ inProgress ++ completed).

(** [JSON.stringify] of an array of tasks. *)
Definition tasksText (l : list Task.t) : string :=
  JSON.stringify (JArr (task_to_json <$> l)).

(** [handleDragEnd(event)].  The state update is applied to the state
    the handler was rendered with; the text written to [localStorage]
    is computed from that same [tasks].  The result is the state of the
    component once it is rendered again: when the update function
    throws, the rendering fails, and the result is the error. *)
Definition handleDragEnd (event : DragEndEvent) (st : State)
    : Completion State :=
  match over event with
  | None => mret st
  | Some over_id =>
      if decide (active event = over_id) then mret st else
      let sourceColumn := columnOf (tasks st) (active event) in
      let targetColumn := targetColumnOf (tasks st) over_id in
      match sourceColumn with
      | None => mret st
      | Some sourceColumn =>
          if negb (truthy (IdStr sourceColumn)) || negb (truthy targetColumn)
             || bool_decide (IdStr sourceColumn = targetColumn)
          then mret st
          else
            updatedTasks ← moveTask sourceColumn targetColumn (active event)
                                    (tasks st);
            flat ← flatTasks (tasks st);
            mret (setItem "tasks" (tasksText flat) (setTasks updatedTasks st))
      end
  end.

(** *** The status filter *)

Definition selectStatusFilter (status : string) (st : State) : State :=
  if decide (taskStatusFilter st = status)
  then setTaskStatusFilter DEFAULT_FILTER_OPTION st
  else setTaskStatusFilter status st.

Definition filteredTasks (st : State) : Board :=
  if decide (taskStatusFilter st = DEFAULT_FILTER_OPTION) then tasks st
  else
    Object_fromEntries
      (filter (λ kv, kv.1 = taskStatusFilter st) (Object_entries (tasks st))).

End Dashboard.
Export Dashboard.

(** ** The vocabulary of the specification *)

Module Spec.

(** The three fixed columns and the names the component gives them. *)
Inductive ColumnId := ToDo | InProgress | Completed.

#[global] Instance ColumnId_eq_dec : EqDecision ColumnId.
Proof. solve_decision. Defined.

Definition columnKey (c : ColumnId) : string :=
  match c with
  | ToDo => "To Do"
  | InProgress => "In Progress"
  | Completed => "Completed"
  end.

(** The categorizer as the specification words it: at most 40 is ToDo,
    above 40 and at most 80 is InProgress, above 80 is Completed. *)
Definition categorize (p : Z) : ColumnId :=
  if decide (p ≤ 40)%Z then ToDo
  else if decide (p ≤ 80)%Z then InProgress
  else Completed.

(** The tasks of a column of a board; a column that is absent holds
    none. *)
Definition column (b : Board) (c : ColumnId) : list Task.t :=
  default [] (obj_get b (columnKey c)).

(** The names of the columns of a board that hold a task. *)
Definition columnsHolding (b : Board) (task : Task.t) : list string :=
  filter (λ k, task ∈ default [] (obj_get b k)) (Object_keys b).

(** All the tasks of a board, column after column. *)
Definition allTasks (b : Board) : list Task.t := mjoin b.*2.

(** The board with the three columns, given the tasks of each. *)
Definition boardOf (cols : ColumnId → list Task.t) : Board :=
  columns (cols ToDo) (cols InProgress) (cols Completed).

(** The three columns are there. *)
Definition hasColumns (b : Board) : Prop :=
  ∀ c, is_Some (obj_get b (columnKey c)).

(** Identifiers are unique among the tasks of a board. *)
Definition uniqueIds (b : Board) : Prop := NoDup (Task.id <$> allTasks b).

(** The two events of the scan: the alert with the title of the task,
    in the severity of its rule. *)
Definition dueTodayToast (task : Task.t) : Toast :=
  {| message := "🚨 Task Due Today: " +:+ quoted (Task.title task);
     bgClass := "bg-red-500 text-white" |}.

Definition dueTomorrowToast (task : Task.t) : Toast :=
  {| message := "⏳ Task Due Tomorrow: " +:+ quoted (Task.title task);
     bgClass := "bg-yellow-500 text-black" |}.

(** The scan as the specification words it, for one task: a due-today
    event for a deadline of today, a due-tomorrow event for a deadline of
    tomorrow, nothing otherwise. *)
Definition alertsOf (today tomorrowStr : string) (task : Task.t) : list Toast :=
  if decide (Task.deadline task = Some today) then [dueTodayToast task]
  else if decide (Task.deadline task = Some tomorrowStr) then [dueTomorrowToast task]
  else [].

(** The drops for which the specification asks for no move: the card is
    dropped outside every droppable or onto itself, its task is in no
    column, the target it resolves to is none of the three columns, or
    the target is the column the task is in. *)
Inductive noMove (b : Board) (event : DragEndEvent) : Prop :=
| droppedOutside :
    over event = None → noMove b event
| droppedOnItself :
    over event = Some (active event) → noMove b event
| taskNotFound :
    (∀ task, task ∈ allTasks b → Task.id task ≠ active event) → noMove b event
| targetMissing o :
    over event = Some o →
    (∀ c, targetColumnOf b o ≠ IdStr (columnKey c)) → noMove b event
| sameColumn o c :
    over event = Some o → columnOf b (active event) = Some c →
    targetColumnOf b o = IdStr c → noMove b event.

End Spec.
Export Spec.

(** ** Sample data *)

Module Sample.

Definition boundaryTask (p : Z) : Task.t :=
  Task.mk (IdNum 1) "report" p None.

Definition task1 : Task.t := Task.mk (IdNum 1) "draft" 10 None.
Definition task2 : Task.t := Task.mk (IdNum 2) "review" 50 (Some "2024-05-01").
Definition task3 : Task.t := Task.mk (IdNum 3) "ship" 90 (Some "2024-05-02").

(** The component after it loaded the three tasks. *)
Definition loaded : State :=
  setTasks (categorizedTasks [task1; task2; task3]) (initial ∅).

(** The columns of [loaded]. *)
Definition sampleCols (c : ColumnId) : list Task.t :=
  match c with ToDo => [task1] | InProgress => [task2] | Completed => [task3] end.

End Sample.
Export Sample.

(** ** Dates

    The time values and the operations on them of the language: the
    calendar in universal time, the local time of a time zone, and the
    text of [toISOString]. *)

Module Date.

Open Scope Z_scope.

Definition msPerDay : Z := 86400000.

Definition Day (t : Z) : Z := t / msPerDay.
Definition TimeWithinDay (t : Z) : Z := t mod msPerDay.

Definition DaysInYear (y : Z) : Z :=
  if decide (y mod 4 ≠ 0) then 365
  else if decide (y mod 100 ≠ 0) then 366
  else if decide (y mod 400 ≠ 0) then 365
  else 366.

(** The number of the first day of year [y]. *)
Definition DayFromYear (y : Z) : Z :=
  365 * (y - 1970) + (y - 1969) / 4 - (y - 1901) / 100 + (y - 1601) / 400.

(** The largest year that starts at or before [t]: the year of the mean
    length of a year, or one of its neighbours. *)
Definition YearFromTime (t : Z) : Z :=
  let y := 1970 + Day t * 400 / 146097 in
  if decide (DayFromYear (y + 1) ≤ Day t) then y + 1
  else if decide (DayFromYear y ≤ Day t) then y
  else y - 1.

Definition InLeapYear (t : Z) : Z :=
  if decide (DaysInYear (YearFromTime t) = 366) then 1 else 0.

Definition DayWithinYear (t : Z) : Z := Day t - DayFromYear (YearFromTime t).

(** The day within the year on which month [m] starts. *)
Definition monthStart (leap m : Z) : Z :=
  match m with
  | 0 => 0 | 1 => 31 | 2 => 59 + leap | 3 => 90 + leap | 4 => 120 + leap
  | 5 => 151 + leap | 6 => 181 + leap | 7 => 212 + leap | 8 => 243 + leap
  | 9 => 273 + leap | 10 => 304 + leap | _ => 334 + leap
  end.

Definition MonthFromTime (t : Z) : Z :=
  let d := DayWithinYear t in
  let leap := InLeapYear t in
  if decide (d < 31) then 0
  else if decide (d < 59 + leap) then 1
  else if decide (d < 90 + leap) then 2
  else if decide (d < 120 + leap) then 3
  else if decide (d < 151 + leap) then 4
  else if decide (d < 181 + leap) then 5
  else if decide (d < 212 + leap) then 6
  else if decide (d < 243 + leap) then 7
  else if decide (d < 273 + leap) then 8
  else if decide (d < 304 + leap) then 9
  else if decide (d < 334 + leap) then 10
  else 11.

Definition DateFromTime (t : Z) : Z :=
  DayWithinYear t - monthStart (InLeapYear t) (MonthFromTime t) + 1.

(** The number of the day [date] of month [month] of [year]; months
    and dates out of their range carry over. *)
Definition MakeDay (year month date : Z) : Z :=
  let ym := year + month / 12 in
  let mn := month mod 12 in
  DayFromYear ym + monthStart (if decide (DaysInYear ym = 366) then 1 else 0) mn
  + date - 1.

Definition MakeDate (day time : Z) : Z := day * msPerDay + time.

(** A time value out of the range of dates is [NaN], here [None]. *)
Definition TimeClip (time : Z) : option Z :=
  if decide (Z.abs time ≤ 8640000000000000) then Some time else None.

(** The time zone of the browser: [LocalTZA t true] is the offset of
    local time at the instant [t], and [LocalTZA t false] the offset at
    the local time [t]. *)
Section Zone.
Variable LocalTZA : Z → bool → Z.

Definition LocalTime (t : Z) : Z := t + LocalTZA t true.
Definition UTC (t : Z) : Z := t - LocalTZA t false.

Definition getDate (tv : option Z) : option Z :=
  t ← tv; Some (DateFromTime (LocalTime t)).

Definition setDate (tv : option Z) (date : option Z) : option Z :=
  t ← tv; dt ← date;
  let t := LocalTime t in
  let newDate := MakeDate (MakeDay (YearFromTime t) (MonthFromTime t) dt)
                          (TimeWithinDay t) in
  TimeClip (UTC newDate).
End Zone.

Definition digit (n : Z) : ascii := ascii_of_N (48 + Z.to_N n).

(** The last [width] decimal digits of [n]. *)
Fixpoint pad (width : nat) (n : Z) : string :=
  match width with
  | O => EmptyString
  | S width' => pad width' (n / 10) +:+ String (digit (n mod 10)) EmptyString
  end.

(** [toISOString()]: years from 0 to 9999 have four digits, the others
    a sign and six digits. *)
Definition toISOString (tv : option Z) : Completion string :=
  match tv with
  | None => Throw RangeError
  | Some t =>
      let y := YearFromTime t in
      Normal
        ((if decide (0 ≤ y ≤ 9999) then pad 4 y
          else (if decide (y < 0) then "-" else "+") +:+ pad 6 (Z.abs y))
         +:+ "-" +:+ pad 2 (MonthFromTime t + 1)
         +:+ "-" +:+ pad 2 (DateFromTime t)
         +:+ "T" +:+ pad 2 (t / 3600000 mod 24)
         +:+ ":" +:+ pad 2 (t / 60000 mod 60)
         +:+ ":" +:+ pad 2 (t / 1000 mod 60)
         +:+ "." +:+ pad 3 (t mod 1000) +:+ "Z")
  end.

(** [s.split(sep)] for a separator of one character. *)
Fixpoint String_split (sep : ascii) (s : string) : list string :=
  match s with
  | EmptyString => [EmptyString]
  | String c s' =>
      if decide (c = sep) then EmptyString :: String_split sep s'
      else match String_split sep s' with
           | piece :: rest => String c piece :: rest
           | [] => [String c EmptyString]
           end
  end.

(** [tv.toISOString().split("T")[0]] *)
Definition isoDate (tv : option Z) : Completion string :=
  iso ← toISOString tv;
  defined (head (String_split "T" iso)).

End Date.

(** [checkDeadlines(tasks)] with its two readings of the clock, [now]
    for [today] and [now'] for [tomorrow], in the time zone of the
    browser. *)
Definition checkDeadlinesAt (LocalTZA : Z → bool → Z) (now now' : Z)
    (tasks : list Task.t) (st : State) : Completion State :=
  today ← Date.isoDate (Date.TimeClip now);
  let tomorrow := Date.TimeClip now' in
  let tomorrow :=
    Date.setDate LocalTZA tomorrow
      ((λ date, date + 1)%Z <$> Date.getDate LocalTZA tomorrow) in
  tomorrowStr ← Date.isoDate tomorrow;
  mret (checkDeadlines today tomorrowStr tasks st).

(** ** The rest of the dashboard *)

Module View.

(** [chartData]: the labels and the heights of the bars.  It is computed
    at every rendering and reads the three columns. *)
Record Chart := { labels : list string; data : list nat }.

Definition chartData (tasks : Board) : Completion Chart :=
  toDo ← defined (obj_get tasks "To Do");
  inProgress ← defined (obj_get tasks "In Progress");
  completed ← defined (obj_get tasks "Completed");
  mret {| labels := ["To Do"; "In Progress"; "Completed"];
          data := [length toDo; length inProgress; length completed] |}.

(** The identifiers the board hands to what it renders: [id={columnKey}]
    for each column of [filteredTasks], [id={task.id}] for each of its
    tasks. *)
Definition columnIds (st : State) : list Id :=
  IdStr <$> Object_keys (filteredTasks st).

Definition cardIds (st : State) : list Id :=
  Object_keys (filteredTasks st) ≫= λ columnKey,
    Task.id <$> default [] (obj_get (filteredTasks st) columnKey).






End View.
Export View.

(** ** Moves between columns *)

Module Moves.

(** The columns after task [T] went from column [A] to column [B]. *)
Definition afterMove (cols : ColumnId → list Task.t) (A B : ColumnId)
    (T : Task.t) : ColumnId → list Task.t :=
  λ c, if decide (c = A) then filter (λ task, Task.id task ≠ Task.id T) (cols A)
       else if decide (c = B) then cols B ++ [T]
       else cols c.

(** The droppable [o] stands for column [B]: it is the column itself, and
    no task has its name for identifier, or it is a task of the column. *)
Definition dropsOn (cols : ColumnId → list Task.t) (B : ColumnId) (o : Id) : Prop :=
  (o = IdStr (columnKey B) ∧
   ∀ task, task ∈ allTasks (boardOf cols) → Task.id task ≠ o) ∨
  (∃ U, U ∈ cols B ∧ Task.id U = o).

(** The drops at which the handler returns at its first or at its second
    guard: nothing is under the card or the card itself is, the card is
    of no task of the board, the target is falsy, or the target is the
    column the task is in. *)
Inductive returnsEarly (b : Board) (event : DragEndEvent) : Prop :=
| nothingOver :
    over event = None → returnsEarly b event
| overItself :
    over event = Some (active event) → returnsEarly b event
| noSourceColumn :
    (∀ task, task ∈ allTasks b → Task.id task ≠ active event) →
    returnsEarly b event
| falsyTarget o :
    over event = Some o → truthy (targetColumnOf b o) = false →
    returnsEarly b event
| sourceIsTarget o c :
    over event = Some o → columnOf b (active event) = Some c →
    targetColumnOf b o = IdStr c → returnsEarly b event.

(** The target is no column of the board and has the name of a property
    that the board inherits. *)
Definition inheritedOnly (b : Board) (targetColumn : Id) : Prop :=
  obj_get b (ToString targetColumn) = None ∧
  ToString targetColumn ∈ Object_prototype.

#[global] Instance inheritedOnly_dec (b : Board) (targetColumn : Id) :
  Decision (inheritedOnly b targetColumn).
Proof. unfold inheritedOnly. apply _. Defined.

End Moves.
Export Moves.

(** ** Authentication: [utils/api.js] and the authentication context

    The body of a reply is [null] or an object whose fields are strings,
    [null] or absent.  The response of the server to a request is given;
    what is sent to it is left out. *)

Module Auth.

(** A value read off a reply or off the storage: a string, [null] or
    [undefined]. *)
Inductive Val := VUndefined | VNull | VStr (s : string).

#[global] Instance Val_eq_dec : EqDecision Val.
Proof. solve_decision. Defined.

(** [ToString], as [setItem] applies it to what it stores. *)
Definition valString (v : Val) : string :=
  match v with VUndefined => "undefined" | VNull => "null" | VStr s => s end.

(** [ToBoolean] *)
Definition valTruthy (v : Val) : bool :=
  match v with VStr s => bool_decide (s ≠ EmptyString) | _ => false end.

(** What [getItem] returns. *)
Definition item (ls : gmap string string) (k : string) : Val :=
  match ls !! k with Some s => VStr s | None => VNull end.

Module User.
Record t := mk { email : Val; role : Val; userId : Val }.
End User.

(** The fields the client reads off the JSON body of a reply. *)
Module Data.
Record t := mk { token : Val; role : Val; userId : Val; message : Val }.
End Data.

(** What comes back from [fetch]: nothing, when [fetch] or
    [response.json()] rejects, or the flag [response.ok] with the body,
    which is an object or [null]. *)
Inductive Response :=
| NoResponse
| Received (ok : bool) (data : Data.t)
| ReceivedNull (ok : bool).

Inductive Failure :=
| Rejected                         (* the rejection of [fetch] *)
| ErrorMessage (message : string)  (* [new Error(message)] *)
| NullRead.                        (* the [TypeError] of a read off [null] *)

Inductive Outcome (A : Type) :=
| Returned (a : A)
| ReturnedNull
| Thrown (f : Failure).
Arguments Returned {A} a.
Arguments ReturnedNull {A}.
Arguments Thrown {A} f.

(** *** [utils/api.js] *)

(** The body of the four functions of [authAPI], after the call of
    [fetch]: [data.message || fallback] is thrown unless [response.ok];
    reading [data.message] off [null] throws. *)
Definition reply (fallback : string) (response : Response) : Outcome Data.t :=
  match response with
  | NoResponse => Thrown Rejected
  | Received ok data =>
      if negb ok then
        Thrown (ErrorMessage (if valTruthy (Data.message data)
                              then valString (Data.message data) else fallback))
      else Returned data
  | ReceivedNull ok =>
      if negb ok then Thrown NullRead else ReturnedNull
  end.

Definition authAPI_login : Response → Outcome Data.t := reply "Login failed".
Definition authAPI_register : Response → Outcome Data.t := reply "Registration failed".
Definition authAPI_forgotPassword : Response → Outcome Data.t :=
  reply "Failed to process forgot password request".
Definition authAPI_resetPassword : Response → Outcome Data.t :=
  reply "Failed to reset password".

(** [getAuthHeader()] *)
Definition getAuthHeader (ls : gmap string string) : Obj string :=
  if valTruthy (item ls "token")
  then obj_set [] "Authorization" ("Bearer " +:+ valString (item ls "token"))
  else [].

(** [{...target, ...source}]: the properties of [source] are set in
    their order. *)
Definition spread {V} (target source : Obj V) : Obj V :=
  fold_left (λ o kv, obj_set o kv.1 kv.2) source target.

(** The headers [fetchWithAuth] sends; [options.headers] may be
    [undefined]. *)
Definition fetchHeaders (optionsHeaders : option (Obj string))
    (ls : gmap string string) : Obj string :=
  obj_set (spread (spread [] (default [] optionsHeaders)) (getAuthHeader ls))
          "Content-Type" "application/json".

(** *** The authentication context *)

Record State := {
  user : option User.t;
  loading : bool;
  storage : gmap string string
}.

Definition setUser (u : option User.t) (st : State) : State :=
  {| user := u; loading := loading st; storage := storage st |}.

Definition setLoading (b : bool) (st : State) : State :=
  {| user := user st; loading := b; storage := storage st |}.

Definition setItem (k : string) (v : Val) (st : State) : State :=
  {| user := user st; loading := loading st;
     storage := <[k := valString v]> (storage st) |}.

Definition removeItem (k : string) (st : State) : State :=
  {| user := user st; loading := loading st; storage := delete k (storage st) |}.

(** The user read off the storage: [{ email, role, userId }]. *)
Definition storedUser (ls : gmap string string) : User.t :=
  User.mk (item ls "email") (item ls "userRole") (item ls "userId").

(** [useState] of the provider. *)
Definition initial (ls : gmap string string) : State :=
  {| user := if valTruthy (item ls "token") && valTruthy (item ls "email")
             then Some (storedUser ls) else None;
     loading := true;
     storage := ls |}.

Definition handleLogout (st : State) : State :=
  setUser None
    (removeItem "email" (removeItem "userId" (removeItem "userRole"
       (removeItem "token" st)))).

(** The effect that runs when the provider is mounted. *)
Definition checkAuth (st : State) : State :=
  setLoading false
    (if valTruthy (item (storage st) "token") then
       if valTruthy (item (storage st) "email")
       then setUser (Some (storedUser (storage st))) st
       else handleLogout st
     else st).

(** [login(email, password, role)], given the response of the server to
    the credentials.  Reading [data.token] off [null] throws before
    anything is stored. *)
Definition login (email : Val) (response : Response) (st : State)
    : Outcome Data.t * State :=
  match authAPI_login response with
  | Returned data =>
      (Returned data,
       setUser (Some (User.mk email (Data.role data) (Data.userId data)))
         (setItem "email" email (setItem "userId" (Data.userId data)
            (setItem "userRole" (Data.role data)
               (setItem "token" (Data.token data) st)))))
  | ReturnedNull => (Thrown NullRead, st)
  | Thrown f => (Thrown f, st)
  end.

(** [signup(fullName, email, password, role = 'user')] *)
Definition signup (email role : Val) (response : Response) (st : State)
    : Outcome Data.t * State :=
  let role := match role with VUndefined => VStr "user" | _ => role end in
  match authAPI_register response with
  | Returned data =>
      (Returned data,
       setUser (Some (User.mk email role (Data.userId data)))
         (setItem "email" email (setItem "userId" (Data.userId data)
            (setItem "userRole" role
               (setItem "token" (Data.token data) st)))))
  | ReturnedNull => (Thrown NullRead, st)
  | Thrown f => (Thrown f, st)
  end.

(** [hasRole(requiredRole)]: [getItem("userRole") === requiredRole] *)
Definition hasRole (requiredRole : Val) (st : State) : bool :=
  bool_decide (item (storage st) "userRole" = requiredRole).

Definition isAdmin (st : State) : bool := hasRole (VStr "admin") st.

Definition isAuthenticated (st : State) : bool := bool_decide (is_Some (user st)).

End Auth.

(** ** More sample data *)

Module Sample2.

(** [loaded] after task 2 was dropped on Completed, and after it was
    dropped back on In Progress. *)
Definition movedSample : Dashboard.State :=
  Dashboard.setItem "tasks" (tasksText [task1; task2; task3])
    (setTasks (columns [task1] [] [task3; task2]) loaded).


(** [loaded] with notes in the storage. *)
Definition notedSample : Dashboard.State :=
  Dashboard.setItem "notes" "call the printer" loaded.

Definition sampleData : Auth.Data.t :=
  Auth.Data.mk (Auth.VStr "t0k3n") (Auth.VStr "user") (Auth.VStr "42")
               Auth.VUndefined.

Definition refusal : Auth.Data.t :=
  Auth.Data.mk Auth.VUndefined Auth.VUndefined Auth.VUndefined
               (Auth.VStr "Invalid credentials").

Definition sampleHeaders : Obj string :=
  [("Accept", "text/html"); ("Content-Type", "text/plain");
   ("content-type", "text/plain")].

(** The time zone of London in 2024: summer time from 31 March, 01:00
    universal time, to 27 October, 01:00 universal time.  A local time
    that the clocks skip or repeat is read with the offset before the
    change. *)
Definition london2024 (t : Z) (isUTC : bool) : Z :=
  if isUTC then
    if decide (1711846800000 ≤ t < 1729990800000)%Z then 3600000 else 0
  else
    if decide (1711846800000 + 3600000 ≤ t < 1729990800000 + 3600000)%Z
    then 3600000 else 0.

(** Half an hour after midnight, universal time, on 31 March 2024. *)
Definition springNight : Z := 1711845000000.

(** Half an hour before midnight, universal time, on 26 October 2024. *)
Definition autumnNight : Z := 1729985400000.

Definition rentTask (deadline : string) : Task.t :=
  Task.mk (IdNum 6) "pay the rent" 10 (Some deadline).

End Sample2.
Export Sample2.

(** * Properties *)

(** ** Objects *)

Section ObjFacts.
Context {V : Type}.
Implicit Types (o : Obj V) (k : string) (v : V).

Lemma obj_get_nil k : obj_get (V:=V) [] k = None.
Proof. reflexivity. Qed.

Lemma obj_get_cons k k' v o :
  obj_get ((k', v) :: o) k = if decide (k' = k) then Some v else obj_get o k.
Proof.
  unfold obj_get, Array_find. cbn [list_find]. simpl.
  destruct (decide (k' = k)) as [->|Hne]; simpl.
  - reflexivity.
  - destruct (list_find _ o) as [[i kv]|]; reflexivity.
Qed.

Lemma obj_get_Some_elem k v o : obj_get o k = Some v → (k, v) ∈ o.
Proof.
  induction o as [|[k' v'] o IH]; rewrite ?obj_get_nil, ?obj_get_cons.
  - discriminate.
  - destruct (decide (k' = k)) as [->|_].
    + intros [= ->]. left.
    + intros H. right. auto.
Qed.

Lemma obj_get_None k o : obj_get o k = None ↔ k ∉ Object_keys o.
Proof.
  unfold Object_keys.
  induction o as [|[k' v'] o IH]; rewrite ?obj_get_nil, ?obj_get_cons; simpl.
  - split; [intros _; apply not_elem_of_nil | done].
  - rewrite not_elem_of_cons. destruct (decide (k' = k)) as [->|Hne].
    + split; [discriminate | intros [? _]; congruence].
    + rewrite IH. split; [intros ?; split; [congruence|done] | tauto].
Qed.

Lemma obj_get_is_Some k o : is_Some (obj_get o k) ↔ k ∈ Object_keys o.
Proof.
  rewrite <- not_eq_None_Some, obj_get_None.
  destruct (decide (k ∈ Object_keys o)); tauto.
Qed.

Lemma obj_get_elem k v o :
  NoDup (Object_keys o) → (k, v) ∈ o → obj_get o k = Some v.
Proof.
  unfold Object_keys.
  induction o as [|[k' v'] o IH]; simpl; intros Hnd Hin.
  - by apply elem_of_nil in Hin.
  - apply NoDup_cons in Hnd as [Hk Hnd]. rewrite obj_get_cons.
    apply elem_of_cons in Hin as [[= -> ->]|Hin].
    + by rewrite decide_True.
    + rewrite decide_False; [auto|].
      intros ->. apply Hk. apply list_elem_of_fmap. by exists (k, v).
Qed.

Lemma obj_replace_keys k v o : Object_keys (obj_replace k v o) = Object_keys o.
Proof.
  unfold Object_keys. induction o as [|[k' v'] o IH]; csimpl; [done|].
  destruct (decide (k' = k)) as [->|_]; csimpl; [done|]. by rewrite IH.
Qed.

Lemma obj_get_replace k k' v o :
  obj_get (obj_replace k v o) k' =
  if decide (k = k') then (λ _, v) <$> obj_get o k else obj_get o k'.
Proof.
  induction o as [|[k0 v0] o IH]; simpl.
  - by destruct (decide (k = k')).
  - destruct (decide (k0 = k)) as [->|Hne]; rewrite !obj_get_cons.
    + destruct (decide (k = k')) as [->|?]; [by rewrite decide_True|done].
    + rewrite IH. destruct (decide (k = k')) as [->|?].
      * by rewrite !decide_False.
      * done.
Qed.

Lemma obj_get_app k o1 o2 :
  obj_get (o1 ++ o2) k =
  match obj_get o1 k with Some v => Some v | None => obj_get o2 k end.
Proof.
  induction o1 as [|[k' v'] o1 IH]; simpl; [done|].
  rewrite !obj_get_cons. by destruct (decide (k' = k)).
Qed.

Lemma obj_get_insert_index n k k' v o :
  obj_get o k = None →
  obj_get (obj_insert_index n k v o) k' =
  if decide (k = k') then Some v else obj_get o k'.
Proof.
  induction o as [|[k0 v0] o IH]; simpl; intros Hk.
  - rewrite obj_get_cons. by destruct (decide (k = k')).
  - rewrite obj_get_cons in Hk. destruct (decide (k0 = k)) as [|Hne]; [done|].
    assert (Hhead : obj_get ((k, v) :: (k0, v0) :: o) k' =
              if decide (k = k') then Some v else obj_get ((k0, v0) :: o) k').
    { by rewrite obj_get_cons. }
    destruct (array_index k0) as [n'|]; [|done].
    destruct (decide (n' < n)%N); [|done].
    rewrite !obj_get_cons, IH by done.
    destruct (decide (k0 = k')) as [->|?]; [by rewrite decide_False|done].
Qed.



Lemma obj_set_old k v o : is_Some (obj_get o k) → obj_set o k v = obj_replace k v o.
Proof. intros [v' H]. unfold obj_set. by rewrite H. Qed.

Lemma obj_get_set k k' v o :
  obj_get (obj_set o k v) k' = if decide (k = k') then Some v else obj_get o k'.
Proof.
  destruct (obj_get o k) as [v0|] eqn:Hk.
  - rewrite obj_set_old by eauto. rewrite obj_get_replace, Hk.
    by destruct (decide (k = k')).
  - unfold obj_set. rewrite Hk. destruct (array_index k).
    + by apply obj_get_insert_index.
    + rewrite obj_get_app, obj_get_cons, obj_get_nil.
      destruct (decide (k = k')) as [<-|?]; [by rewrite Hk|].
      by destruct (obj_get o k').
Qed.

End ObjFacts.

(** ** The partition into columns *)

Lemma columns_eq a b c :
  columns a b c = [("To Do", a); ("In Progress", b); ("Completed", c)].
Proof. reflexivity. Qed.

Lemma columns_get a b c col :
  obj_get (columns a b c) (columnKey col) =
  Some match col with ToDo => a | InProgress => b | Completed => c end.
Proof. by destruct col. Qed.

Lemma columns_keys a b c :
  Object_keys (columns a b c) = ["To Do"; "In Progress"; "Completed"].
Proof. reflexivity. Qed.

Lemma categorizedTasks_categorize storedTasks :
  categorizedTasks storedTasks =
  columns (filter (λ task, categorize (Task.progress task) = ToDo) storedTasks)
          (filter (λ task, categorize (Task.progress task) = InProgress) storedTasks)
          (filter (λ task, categorize (Task.progress task) = Completed) storedTasks).
Proof.
  unfold categorizedTasks.
  f_equal; apply list_filter_iff; intros task; unfold categorize;
    repeat case_decide; split; intros; try done; lia.
Qed.

Lemma categorizedTasks_column storedTasks c :
  obj_get (categorizedTasks storedTasks) (columnKey c) =
  Some (filter (λ task, categorize (Task.progress task) = c) storedTasks).
Proof. rewrite categorizedTasks_categorize, columns_get. by destruct c. Qed.

Lemma categorizedTasks_flat storedTasks :
  flatTasks (categorizedTasks storedTasks) =
  Normal (column (categorizedTasks storedTasks) ToDo ++
          column (categorizedTasks storedTasks) InProgress ++
          column (categorizedTasks storedTasks) Completed).
Proof. reflexivity. Qed.

Lemma filter_categorize_twice (c c' : ColumnId) (l : list Task.t) :
  filter (λ task, categorize (Task.progress task) = c)
         (filter (λ task, categorize (Task.progress task) = c') l) =
  if decide (c = c') then filter (λ task, categorize (Task.progress task) = c) l
  else [].
Proof.
  rewrite list_filter_filter. destruct (decide (c = c')) as [->|Hne].
  - apply list_filter_iff. tauto.
  - induction l as [|task l IH]; [done|].
    rewrite filter_cons_False; [done | intros [? ?]; congruence].
Qed.

Lemma filter_categorize_flat (c : ColumnId) (l : list Task.t) :
  filter (λ task, categorize (Task.progress task) = c)
    (filter (λ task, categorize (Task.progress task) = ToDo) l ++
     filter (λ task, categorize (Task.progress task) = InProgress) l ++
     filter (λ task, categorize (Task.progress task) = Completed) l)
  = filter (λ task, categorize (Task.progress task) = c) l.
Proof.
  rewrite !filter_app, !filter_categorize_twice.
  destruct c; simpl; by rewrite ?app_nil_r.
Qed.

Lemma categorizedTasks_ext (l1 l2 : list Task.t) :
  (∀ c, filter (λ task, categorize (Task.progress task) = c) l1 =
        filter (λ task, categorize (Task.progress task) = c) l2) →
  categorizedTasks l1 = categorizedTasks l2.
Proof. intros H. rewrite !categorizedTasks_categorize. by rewrite !H. Qed.

Lemma categorizedTasks_rebuild (storedTasks flat : list Task.t) :
  flatTasks (categorizedTasks storedTasks) = Normal flat →
  categorizedTasks flat = categorizedTasks storedTasks.
Proof.
  rewrite categorizedTasks_flat. intros [= <-].
  apply categorizedTasks_ext. intros c. unfold column.
  rewrite !categorizedTasks_column. simpl. apply filter_categorize_flat.
Qed.

(** C4. A task whose progress lies in [0,100] is put into exactly
    one column by the partition of the stored tasks: the column the
    categorizer names, that is To Do up to 40, In Progress above 40 and
    up to 80, Completed above 80. *)
Theorem categorize_partitions_progress (task : Task.t) :
  (0 ≤ Task.progress task ≤ 100)%Z →
  columnsHolding (categorizedTasks [task]) task =
    [columnKey (categorize (Task.progress task))] ∧
  ((Task.progress task ≤ 40)%Z →
     columnsHolding (categorizedTasks [task]) task = ["To Do"]) ∧
  ((40 < Task.progress task ≤ 80)%Z →
     columnsHolding (categorizedTasks [task]) task = ["In Progress"]) ∧
  ((80 < Task.progress task)%Z →
     columnsHolding (categorizedTasks [task]) task = ["Completed"]).
Proof.
  intros Hrange.
  assert (H : columnsHolding (categorizedTasks [task]) task =
              [columnKey (categorize (Task.progress task))]).
  { unfold columnsHolding.
    change (Object_keys (categorizedTasks [task]))
      with ["To Do"; "In Progress"; "Completed"].
    assert (Hk : ∀ c, task ∈ default [] (obj_get (categorizedTasks [task]) (columnKey c))
                      ↔ categorize (Task.progress task) = c).
    { intros c. rewrite categorizedTasks_column. simpl.
      rewrite list_elem_of_filter, list_elem_of_singleton. tauto. }
    pose proof (Hk ToDo) as H1. pose proof (Hk InProgress) as H2.
    pose proof (Hk Completed) as H3. simpl in H1, H2, H3.
    rewrite !filter_cons, filter_nil.
    destruct (categorize (Task.progress task)); repeat case_decide;
      try reflexivity; exfalso; intuition congruence. }
  split; [exact H|]. rewrite H. unfold categorize.
  split_and!; intros; repeat case_decide; try reflexivity; lia.
Qed.

Lemma categorize_partitions_progress_witness :
  columnsHolding (categorizedTasks [boundaryTask 0]) (boundaryTask 0) = ["To Do"] ∧
  columnsHolding (categorizedTasks [boundaryTask 40]) (boundaryTask 40) = ["To Do"] ∧
  columnsHolding (categorizedTasks [boundaryTask 41]) (boundaryTask 41) = ["In Progress"] ∧
  columnsHolding (categorizedTasks [boundaryTask 80]) (boundaryTask 80) = ["In Progress"] ∧
  columnsHolding (categorizedTasks [boundaryTask 81]) (boundaryTask 81) = ["Completed"] ∧
  columnsHolding (categorizedTasks [boundaryTask 100]) (boundaryTask 100) = ["Completed"].
Proof.
  split_and!.
  - apply (categorize_partitions_progress (boundaryTask 0)); simpl; lia.
  - apply (categorize_partitions_progress (boundaryTask 40)); simpl; lia.
  - apply (categorize_partitions_progress (boundaryTask 41)); simpl; lia.
  - apply (categorize_partitions_progress (boundaryTask 80)); simpl; lia.
  - apply (categorize_partitions_progress (boundaryTask 81)); simpl; lia.
  - apply (categorize_partitions_progress (boundaryTask 100)); simpl; lia.
Defined.

(** C7. The partition has the three fixed columns, a column holds
    the stored tasks the categorizer sends there in the order in which
    they are stored, every stored task is in the one column the
    categorizer names, and the columns together hold the stored tasks. *)
Theorem build_is_stable_partition (storedTasks : list Task.t) :
  Object_keys (categorizedTasks storedTasks) = columnKey <$> [ToDo; InProgress; Completed] ∧
  (∀ c, obj_get (categorizedTasks storedTasks) (columnKey c) =
        Some (filter (λ task, categorize (Task.progress task) = c) storedTasks)) ∧
  (∀ c, column (categorizedTasks storedTasks) c `sublist_of` storedTasks) ∧
  (∀ task, task ∈ storedTasks →
     ∀ c, task ∈ column (categorizedTasks storedTasks) c ↔
          c = categorize (Task.progress task)) ∧
  allTasks (categorizedTasks storedTasks) ≡ₚ storedTasks.
Proof.
  split_and!.
  - reflexivity.
  - apply categorizedTasks_column.
  - intros c. unfold column. rewrite categorizedTasks_column. apply sublist_filter.
  - intros task Hin c. unfold column. rewrite categorizedTasks_column. simpl.
    rewrite list_elem_of_filter. split; [by intros [-> _] | by intros ->].
  - unfold allTasks, categorizedTasks. rewrite columns_eq. simpl. rewrite app_nil_r.
    induction storedTasks as [|task l IH]; [done|].
    rewrite !filter_cons.
    repeat case_decide; try lia; simpl; rewrite <- ?Permutation_middle;
      by constructor.
Qed.

(** C9. Flattening a partition and partitioning the result again
    gives the same columns with the same members. *)
Theorem rebuild_keeps_members (storedTasks : list Task.t) :
  ∃ flat,
    flatTasks (categorizedTasks storedTasks) = Normal flat ∧
    Object_keys (categorizedTasks flat) = Object_keys (categorizedTasks storedTasks) ∧
    ∀ k task,
      task ∈ default [] (obj_get (categorizedTasks flat) k) ↔
      task ∈ default [] (obj_get (categorizedTasks storedTasks) k).
Proof.
  eexists. split; [apply categorizedTasks_flat|].
  rewrite (categorizedTasks_rebuild storedTasks _ (categorizedTasks_flat _)).
  done.
Qed.

(** ** Deadline alerts *)

Lemma checkDeadlines_cons today tomorrowStr task (l : list Task.t) st :
  checkDeadlines today tomorrowStr (task :: l) st =
  checkDeadlines today tomorrowStr l
    (if decide (Task.deadline task = Some today) then
       showNotification (message (dueTodayToast task))
                        (bgClass (dueTodayToast task)) st
     else if decide (Task.deadline task = Some tomorrowStr) then
       showNotification (message (dueTomorrowToast task))
                        (bgClass (dueTomorrowToast task)) st
     else st).
Proof. reflexivity. Qed.

Lemma checkDeadlines_toasts today tomorrowStr (storedTasks : list Task.t) st :
  toasts (checkDeadlines today tomorrowStr storedTasks st) =
    toasts st ++ storedTasks ≫= alertsOf today tomorrowStr ∧
  plays (checkDeadlines today tomorrowStr storedTasks st) =
    plays st + length (storedTasks ≫= alertsOf today tomorrowStr) ∧
  tasks (checkDeadlines today tomorrowStr storedTasks st) = tasks st ∧
  localStorage (checkDeadlines today tomorrowStr storedTasks st) = localStorage st.
Proof.
  revert st. induction storedTasks as [|task l IH]; intros st.
  - simpl. by rewrite app_nil_r, Nat.add_0_r.
  - rewrite checkDeadlines_cons, bind_cons, length_app. unfold alertsOf at 1 3.
    repeat case_decide;
      match goal with |- context [checkDeadlines _ _ l ?s] =>
        destruct (IH s) as (-> & -> & -> & ->) end;
      cbn [toasts plays tasks localStorage showNotification length app];
      rewrite <- ?app_assoc; split_and!; try done; lia.
Qed.

(** Given the two dates, the scan goes through the tasks in their order
    and shows, for each, one due-today alert when its deadline is the
    first date, one due-tomorrow alert when its deadline is the second,
    and nothing otherwise; the sound is played once for each alert. *)
Lemma scan_alerts today tomorrowStr (storedTasks : list Task.t) (st : State) :
  today ≠ tomorrowStr →
  ∃ alerts : Task.t → list Toast,
    toasts (checkDeadlines today tomorrowStr storedTasks st) =
      toasts st ++ storedTasks ≫= alerts ∧
    plays (checkDeadlines today tomorrowStr storedTasks st) =
      plays st + length (storedTasks ≫= alerts) ∧
    ∀ task,
      (Task.deadline task = Some today → alerts task = [dueTodayToast task]) ∧
      (Task.deadline task = Some tomorrowStr →
         alerts task = [dueTomorrowToast task]) ∧
      (Task.deadline task ≠ Some today →
       Task.deadline task ≠ Some tomorrowStr → alerts task = []).
Proof.
  intros Hne. exists (alertsOf today tomorrowStr).
  destruct (checkDeadlines_toasts today tomorrowStr storedTasks st)
    as (H1 & H2 & _).
  split_and!; [done|done|].
  intros task. unfold alertsOf. split_and!; intros; repeat case_decide; congruence.
Qed.

Lemma scan_alerts_witness :
  ∃ alerts : Task.t → list Toast,
    toasts (checkDeadlines "2024-05-01" "2024-05-02" [task1; task2; task3] loaded) =
      toasts loaded ++ [task1; task2; task3] ≫= alerts ∧
    alerts task1 = [] ∧ alerts task2 = [dueTodayToast task2] ∧
    alerts task3 = [dueTomorrowToast task3].
Proof.
  destruct (scan_alerts "2024-05-01" "2024-05-02" [task1; task2; task3] loaded)
    as (alerts & H1 & _ & H3); [done|].
  exists alerts. split_and!; [done| | |].
  - by apply H3.
  - by apply H3.
  - by apply H3.
Defined.

(** When the clock gives the same date twice, a task due then gets the
    due-today alert only. *)
Lemma same_date_alerts (d : string) (task : Task.t) st :
  Task.deadline task = Some d →
  toasts (checkDeadlines d d [task] st) = toasts st ++ [dueTodayToast task].
Proof. intros H. simpl. by rewrite decide_True. Qed.

(** ** The dates of the scan *)

Lemma DayFromYear_step y :
  Date.DayFromYear (y + 1) = (Date.DayFromYear y + Date.DaysInYear y)%Z.
Proof.
  unfold Date.DayFromYear, Date.DaysInYear.
  replace (y + 1 - 1970)%Z with (y - 1970 + 1)%Z by lia.
  replace (y + 1 - 1969)%Z with (y - 1969 + 1)%Z by lia.
  repeat case_decide; Z.div_mod_to_equations; lia.
Qed.

Lemma DayFromYear_mono y y' :
  (y ≤ y')%Z → (Date.DayFromYear y ≤ Date.DayFromYear y')%Z.
Proof.
  unfold Date.DayFromYear. intros H. Z.div_mod_to_equations. lia.
Qed.

Lemma YearFromTime_bounds t :
  (Date.DayFromYear (Date.YearFromTime t) ≤ Date.Day t
   < Date.DayFromYear (Date.YearFromTime t + 1))%Z.
Proof.
  unfold Date.YearFromTime. generalize (Date.Day t). intros d.
  unfold Date.DayFromYear. repeat case_decide; Z.div_mod_to_equations; lia.
Qed.

(** [YearFromTime t] is the largest year that starts at or before [t]. *)
Lemma YearFromTime_largest t y :
  (Date.msPerDay * Date.DayFromYear y ≤ t)%Z ↔ (y ≤ Date.YearFromTime t)%Z.
Proof.
  pose proof (YearFromTime_bounds t) as [Hlo Hhi].
  assert (Hday : ∀ d, (Date.msPerDay * d ≤ t ↔ d ≤ Date.Day t)%Z).
  { intros d. unfold Date.Day, Date.msPerDay. Z.div_mod_to_equations. lia. }
  rewrite Hday. split.
  - intros Hy. destruct (decide (y ≤ Date.YearFromTime t)%Z) as [|Hgt]; [done|].
    pose proof (DayFromYear_mono (Date.YearFromTime t + 1) y). lia.
  - intros Hy. pose proof (DayFromYear_mono y (Date.YearFromTime t)). lia.
Qed.

Lemma MonthFromTime_range t : (0 ≤ Date.MonthFromTime t ≤ 11)%Z.
Proof. unfold Date.MonthFromTime. repeat case_decide; lia. Qed.

(** The day after the day of [t], as [setDate] computes it. *)
Lemma MakeDay_next t :
  Date.MakeDay (Date.YearFromTime t) (Date.MonthFromTime t) (Date.DateFromTime t + 1)
  = (Date.Day t + 1)%Z.
Proof.
  pose proof (MonthFromTime_range t) as Hm.
  unfold Date.MakeDay, Date.DateFromTime, Date.DayWithinYear, Date.InLeapYear.
  rewrite (Z.div_small (Date.MonthFromTime t) 12), (Z.mod_small (Date.MonthFromTime t) 12) by lia.
  rewrite Z.add_0_r. lia.
Qed.

Lemma MakeDate_Day t :
  Date.MakeDate (Date.Day t + 1) (Date.TimeWithinDay t) = (t + Date.msPerDay)%Z.
Proof.
  unfold Date.MakeDate, Date.Day, Date.TimeWithinDay, Date.msPerDay.
  Z.div_mod_to_equations. lia.
Qed.

(** [tomorrow.setDate(tomorrow.getDate() + 1)] moves the local time on
    by a day; the instant it then stands for is a day later only when
    the offset of local time is the same again. *)
Lemma setDate_next (LocalTZA : Z → bool → Z) (now : Z) :
  Date.setDate LocalTZA (Some now)
    ((λ date, date + 1)%Z <$> Date.getDate LocalTZA (Some now)) =
  Date.TimeClip
    (now + Date.msPerDay + LocalTZA now true
     - LocalTZA (now + LocalTZA now true + Date.msPerDay)%Z false)%Z.
Proof.
  unfold Date.setDate, Date.getDate. simpl.
  rewrite MakeDay_next, MakeDate_Day. unfold Date.UTC, Date.LocalTime.
  f_equal. lia.
Qed.

Lemma setDate_next_same_offset (LocalTZA : Z → bool → Z) (now : Z) :
  LocalTZA (now + LocalTZA now true + Date.msPerDay)%Z false = LocalTZA now true →
  Date.setDate LocalTZA (Some now)
    ((λ date, date + 1)%Z <$> Date.getDate LocalTZA (Some now)) =
  Date.TimeClip (now + Date.msPerDay)%Z.
Proof. intros H. rewrite setDate_next, H. f_equal. lia. Qed.

Lemma String_split_head sep s : is_Some (head (Date.String_split sep s)).
Proof.
  induction s as [|c s IH]; simpl; [eauto|].
  case_decide; [eauto|]. destruct (Date.String_split sep s); simpl; eauto.
Qed.

Lemma isoDate_Normal t : ∃ d, Date.isoDate (Some t) = Normal d.
Proof.
  unfold Date.isoDate, Date.toISOString. simpl.
  match goal with |- context [head (Date.String_split ?c ?s)] =>
    destruct (String_split_head c s) as [d ->] end.
  by exists d.
Qed.

(** When the offset of local time is the same a day later, the scan is
    the scan for the date of [now] and the date of the day after. *)
Lemma checkDeadlinesAt_same_offset (LocalTZA : Z → bool → Z) (now : Z)
    (storedTasks : list Task.t) (st : State) :
  (Z.abs now ≤ 8640000000000000)%Z →
  (Z.abs (now + Date.msPerDay) ≤ 8640000000000000)%Z →
  LocalTZA (now + LocalTZA now true + Date.msPerDay)%Z false = LocalTZA now true →
  ∃ today tomorrowStr,
    Date.isoDate (Some now) = Normal today ∧
    Date.isoDate (Some (now + Date.msPerDay)%Z) = Normal tomorrowStr ∧
    Date.Day (now + Date.msPerDay) = (Date.Day now + 1)%Z ∧
    checkDeadlinesAt LocalTZA now now storedTasks st =
      Normal (checkDeadlines today tomorrowStr storedTasks st).
Proof.
  intros Hnow Hnext Hoffset.
  destruct (isoDate_Normal now) as [today Htoday].
  destruct (isoDate_Normal (now + Date.msPerDay)) as [tomorrowStr Htomorrow].
  exists today, tomorrowStr. split_and!; [done|done| |].
  - unfold Date.Day, Date.msPerDay. Z.div_mod_to_equations. lia.
  - unfold checkDeadlinesAt.
    assert (Hclip : Date.TimeClip now = Some now).
    { unfold Date.TimeClip. by rewrite decide_True. }
    assert (Hclip' : Date.TimeClip (now + Date.msPerDay) = Some (now + Date.msPerDay)%Z).
    { unfold Date.TimeClip. by rewrite decide_True. }
    rewrite Hclip, (setDate_next_same_offset LocalTZA now Hoffset), Hclip'.
    rewrite Htoday. simpl. by rewrite Htomorrow.
Qed.

(** C6. In London, half an hour after midnight on 31 March 2024, the day
    the clocks go forward, today is 2024-03-31 and the day after is
    2024-04-01, and the scan shows nothing for a task due on 2024-04-01,
    for which the specification has a due-tomorrow event.  Half an hour
    before midnight, universal time, on 26 October 2024, the night the
    clocks go back, today is 2024-10-26, and the scan shows nothing for
    a task due on 2024-10-27 and the due-tomorrow alert for a task due
    on 2024-10-28. *)
Theorem scan_misses_tomorrow_at_clock_change :
  (Date.isoDate (Some springNight) = Normal "2024-03-31" ∧
   Date.isoDate (Some (springNight + Date.msPerDay)%Z) = Normal "2024-04-01" ∧
   checkDeadlinesAt london2024 springNight springNight [rentTask "2024-04-01"] loaded
     = Normal loaded ∧
   alertsOf "2024-03-31" "2024-04-01" (rentTask "2024-04-01")
     = [dueTomorrowToast (rentTask "2024-04-01")]) ∧
  (Date.isoDate (Some autumnNight) = Normal "2024-10-26" ∧
   Date.isoDate (Some (autumnNight + Date.msPerDay)%Z) = Normal "2024-10-27" ∧
   checkDeadlinesAt london2024 autumnNight autumnNight [rentTask "2024-10-27"] loaded
     = Normal loaded ∧
   checkDeadlinesAt london2024 autumnNight autumnNight [rentTask "2024-10-28"] loaded
     = Normal (showNotification (message (dueTomorrowToast (rentTask "2024-10-28")))
                 (bgClass (dueTomorrowToast (rentTask "2024-10-28"))) loaded)).
Proof.
  split; split_and!; by vm_compute.
Qed.

(** ** The status filter *)

(** C8. With the filter [all] the whole board is shown, unchanged;
    selecting the filter that is active sets the filter back to [all],
    so that selecting a filter twice shows the whole board again. *)
Theorem filter_all_and_toggle (st : State) (status : string) :
  filteredTasks (setTaskStatusFilter DEFAULT_FILTER_OPTION st) = tasks st ∧
  taskStatusFilter (selectStatusFilter status (setTaskStatusFilter status st)) =
    DEFAULT_FILTER_OPTION ∧
  filteredTasks (selectStatusFilter status (setTaskStatusFilter status st)) =
    tasks st ∧
  filteredTasks
    (selectStatusFilter status
       (selectStatusFilter status (setTaskStatusFilter DEFAULT_FILTER_OPTION st))) =
    tasks st.
Proof.
  unfold filteredTasks, selectStatusFilter; simpl.
  split_and!; repeat (case_decide; simpl); try done.
Qed.

(** ** Arrays *)

Section ArrayFacts.
Context {A : Type} (P : A → Prop) `{HdecP : !∀ x, Decision (P x)}.
Implicit Types l : list A.

Lemma Array_find_Some l x : Array_find P l = Some x → x ∈ l ∧ P x.
Proof.
  unfold Array_find. destruct (list_find P l) as [[i y]|] eqn:Hfind; [|done].
  intros [= <-]. apply list_find_Some in Hfind as (Hi & HP & _).
  split; [by eapply list_elem_of_lookup_2|done].
Qed.

Lemma Array_find_None l : Array_find P l = None ↔ Forall (λ x, ¬ P x) l.
Proof. unfold Array_find. rewrite fmap_None. apply list_find_None. Qed.

Lemma Array_find_first l1 l2 x :
  Forall (λ y, ¬ P y) l1 → P x → Array_find P (l1 ++ x :: l2) = Some x.
Proof.
  intros Hl1 HP. unfold Array_find.
  assert (Hfind : list_find P (l1 ++ x :: l2) = Some (length l1, x)).
  { apply list_find_Some. split_and!; [|done|].
    - by rewrite list_lookup_middle.
    - intros j y Hj Hlt. rewrite lookup_app_l in Hj by done.
      rewrite Forall_forall in Hl1. apply Hl1. by eapply list_elem_of_lookup_2. }
  by rewrite Hfind.
Qed.

Lemma Array_some_true l : Array_some P l ↔ Exists P l.
Proof. unfold Array_some. apply bool_decide_spec. Qed.

Lemma filter_all l : Forall P l → filter P l = l.
Proof.
  induction 1 as [|x l HP _ IH]; [done|].
  by rewrite filter_cons_True, IH.
Qed.

End ArrayFacts.

(** A task whose identifier is unique in a column: what [find] and
    [filter] make of the column. *)
Lemma unique_id_split (l : list Task.t) (x : Task.t) :
  NoDup (Task.id <$> l) → x ∈ l →
  ∃ l1 l2, l = l1 ++ x :: l2 ∧
    Array_find (λ task, Task.id task = Task.id x) l = Some x ∧
    filter (λ task, Task.id task ≠ Task.id x) l = l1 ++ l2.
Proof.
  intros Hnd Hin. apply list_elem_of_split in Hin as (l1 & l2 & ->).
  exists l1, l2. split; [done|].
  rewrite fmap_app, fmap_cons in Hnd.
  apply NoDup_app in Hnd as (_ & Hl1 & Hnd).
  apply NoDup_cons in Hnd as [Hl2 _].
  assert (H1 : Forall (λ task, Task.id task ≠ Task.id x) l1).
  { apply Forall_forall. intros y Hy Heq.
    apply (Hl1 (Task.id y)); [by apply list_elem_of_fmap_2|]. rewrite Heq. left. }
  assert (H2 : Forall (λ task, Task.id task ≠ Task.id x) l2).
  { apply Forall_forall. intros y Hy Heq.
    apply Hl2. rewrite <- Heq. by apply list_elem_of_fmap_2. }
  split.
  - apply Array_find_first; [|done].
    eapply Forall_impl; [exact H1|]. naive_solver.
  - rewrite filter_app, filter_cons_False by naive_solver.
    by rewrite !filter_all.
Qed.

(** ** Drag and drop *)

Lemma columnOf_Some (b : Board) i c :
  columnOf b i = Some c →
  ∃ source, obj_get b c = Some source ∧
            Exists (λ task, Task.id task = i) source.
Proof.
  unfold columnOf. intros H. apply Array_find_Some in H as [_ H].
  apply Array_some_true in H.
  destruct (obj_get b c) as [source|]; [by exists source|].
  by apply Exists_nil in H.
Qed.

Lemma columnOf_None (b : Board) i k col :
  columnOf b i = None → obj_get b k = Some col →
  Forall (λ task, Task.id task ≠ i) col.
Proof.
  unfold columnOf. intros H Hk. apply Array_find_None in H.
  rewrite Forall_forall in H.
  assert (Hin : k ∈ Object_keys b) by (apply obj_get_is_Some; eauto).
  specialize (H k Hin). rewrite Array_some_true, Hk in H. simpl in H.
  apply Forall_forall. intros task Htask Heq. apply H, Exists_exists. eauto.
Qed.



Lemma allTasks_column (b : Board) k col task :
  obj_get b k = Some col → task ∈ col → task ∈ allTasks b.
Proof.
  intros Hk Hin. apply obj_get_Some_elem in Hk.
  unfold allTasks. apply list_elem_of_join. exists col. split; [done|].
  apply list_elem_of_fmap. by exists (k, col).
Qed.

Lemma columnOf_absent (b : Board) i :
  (∀ task, task ∈ allTasks b → Task.id task ≠ i) → columnOf b i = None.
Proof.
  intros H. unfold columnOf. apply Array_find_None, Forall_forall.
  intros k Hk. rewrite Array_some_true, Exists_exists. intros (x & Hx & Hid).
  apply obj_get_is_Some in Hk as [col Hcol]. rewrite Hcol in Hx. simpl in Hx.
  by apply (H x (allTasks_column _ _ _ _ Hcol Hx)).
Qed.



Lemma uniqueIds_column (b : Board) k col :
  uniqueIds b → obj_get b k = Some col → NoDup (Task.id <$> col).
Proof.
  unfold uniqueIds, allTasks. intros Hnd Hk. apply obj_get_Some_elem in Hk.
  apply list_elem_of_split in Hk as (b1 & b2 & ->).
  rewrite fmap_app, fmap_cons, join_app in Hnd. simpl in Hnd. rewrite !fmap_app in Hnd.
  apply NoDup_app in Hnd as (_ & _ & Hnd). by apply NoDup_app in Hnd as (? & _).
Qed.

Lemma flatTasks_Normal (b : Board) :
  hasColumns b →
  flatTasks b = Normal (column b ToDo ++ column b InProgress ++ column b Completed).
Proof.
  intros H. unfold flatTasks, column.
  destruct (H ToDo) as [l1 H1], (H InProgress) as [l2 H2], (H Completed) as [l3 H3].
  simpl in H1, H2, H3. simpl. by rewrite H1, H2, H3.
Qed.

(** The tasks of the target are read unless the target is no column and
    has a name the board inherits. *)
Lemma targetTasks_Normal (b : Board) target :
  ¬ inheritedOnly b target →
  targetTasks b target = Normal (default [] (obj_get b (ToString target))).
Proof.
  intros Hown. unfold targetTasks.
  destruct (obj_get b (ToString target)) as [col|] eqn:Hget; [done|].
  case_bool_decide as Hin; [|done]. by destruct Hown.
Qed.

Lemma targetTasks_Throw (b : Board) target :
  inheritedOnly b target → targetTasks b target = Throw TypeError.
Proof.
  intros [Hget Hin]. unfold targetTasks. rewrite Hget.
  by rewrite bool_decide_eq_true_2.
Qed.

Lemma inheritedOnly_set (b : Board) c source' target :
  is_Some (obj_get b c) →
  inheritedOnly (obj_set b c source') target ↔ inheritedOnly b target.
Proof.
  intros [source Hget]. unfold inheritedOnly. rewrite obj_get_set.
  case_decide as Heq; [|done]. subst. rewrite Hget. by split; intros [? ?].
Qed.

Lemma moveTask_Normal (b : Board) c target i source moved :
  obj_get b c = Some source →
  Array_find (λ task, Task.id task = i) source = Some moved →
  ¬ inheritedOnly b target →
  moveTask c target i b =
  Normal
    (obj_set (obj_set b c (filter (λ task, Task.id task ≠ i) source))
       (ToString target)
       (default []
          (obj_get (obj_set b c (filter (λ task, Task.id task ≠ i) source))
                   (ToString target)) ++ [moved])).
Proof.
  intros H1 H2 H3. unfold moveTask. rewrite H1. simpl. rewrite H2. simpl.
  rewrite targetTasks_Normal; [done|].
  by rewrite inheritedOnly_set by eauto.
Qed.

Lemma moveTask_Throw (b : Board) c target i source moved :
  obj_get b c = Some source →
  Array_find (λ task, Task.id task = i) source = Some moved →
  inheritedOnly b target →
  moveTask c target i b = Throw TypeError.
Proof.
  intros H1 H2 H3. unfold moveTask. rewrite H1. simpl. rewrite H2. simpl.
  rewrite targetTasks_Throw; [done|].
  by rewrite inheritedOnly_set by eauto.
Qed.

(** A column of the board is no inherited name. *)
Lemma own_not_inherited (b : Board) target :
  is_Some (obj_get b (ToString target)) → ¬ inheritedOnly b target.
Proof. intros [col Hget] [Hnone _]. by rewrite Hget in Hnone. Qed.

(** The handler either leaves the state as it is, or moves the task it
    found and writes the tasks it was rendered with, or fails on a
    target that is an inherited name. *)
Lemma handleDragEnd_cases event st :
  hasColumns (tasks st) →
  handleDragEnd event st = Normal st ∨
  (∃ o, over event = Some o ∧
        inheritedOnly (tasks st) (targetColumnOf (tasks st) o) ∧
        handleDragEnd event st = Throw TypeError) ∨
  ∃ o c source moved,
    over event = Some o ∧ active event ≠ o ∧
    columnOf (tasks st) (active event) = Some c ∧
    IdStr c ≠ targetColumnOf (tasks st) o ∧
    obj_get (tasks st) c = Some source ∧
    Array_find (λ task, Task.id task = active event) source = Some moved ∧
    handleDragEnd event st =
    Normal
      (setItem "tasks"
         (tasksText (column (tasks st) ToDo ++ column (tasks st) InProgress ++
                     column (tasks st) Completed))
         (setTasks
            (obj_set
               (obj_set (tasks st) c
                  (filter (λ task, Task.id task ≠ active event) source))
               (ToString (targetColumnOf (tasks st) o))
               (default []
                  (obj_get
                     (obj_set (tasks st) c
                        (filter (λ task, Task.id task ≠ active event) source))
                     (ToString (targetColumnOf (tasks st) o))) ++ [moved]))
            st)).
Proof.
  intros Hcols. unfold handleDragEnd.
  destruct (over event) as [o|] eqn:Hover; [|by left].
  destruct (decide (active event = o)) as [|Hne]; [by left|].
  destruct (columnOf (tasks st) (active event)) as [c|] eqn:Hsrc; [|by left].
  destruct (negb (truthy (IdStr c)) || negb (truthy (targetColumnOf (tasks st) o))
            || bool_decide (IdStr c = targetColumnOf (tasks st) o)) eqn:Hguard;
    [by left|].
  right.
  apply orb_false_iff in Hguard as [_ Hguard].
  apply bool_decide_eq_false in Hguard.
  destruct (columnOf_Some _ _ _ Hsrc) as (source & Hget & Hex).
  destruct (Array_find (λ task, Task.id task = active event) source)
    as [moved|] eqn:Hfind.
  2: { apply Array_find_None in Hfind. apply Exists_exists in Hex as (x & Hx & Hid).
       rewrite Forall_forall in Hfind. by destruct (Hfind x Hx). }
  destruct (decide (inheritedOnly (tasks st) (targetColumnOf (tasks st) o)))
    as [Hinh|Hown].
  { left. exists o. split_and!; try done.
    by rewrite (moveTask_Throw _ _ _ _ _ _ Hget Hfind Hinh). }
  right. exists o, c, source, moved. split_and!; try done.
  rewrite (moveTask_Normal _ _ _ _ _ _ Hget Hfind Hown), (flatTasks_Normal _ Hcols).
  reflexivity.
Qed.




(** A drop on a droppable that is neither a task nor one of the three
    columns: the specification asks for no move, and the handler makes a
    fourth column of the name and writes to [localStorage]. *)
Lemma move_noop_unknown_column :
  noMove (tasks loaded) {| active := IdNum 2; over := Some (IdStr "Archive") |} ∧
  handleDragEnd {| active := IdNum 2; over := Some (IdStr "Archive") |} loaded
    ≠ Normal loaded ∧
  ∃ st',
    handleDragEnd {| active := IdNum 2; over := Some (IdStr "Archive") |} loaded
      = Normal st' ∧
    Object_keys (tasks st') = ["To Do"; "In Progress"; "Completed"; "Archive"] ∧
    obj_get (tasks st') "Archive" = Some [task2] ∧
    localStorage loaded !! "tasks" = None ∧
    localStorage st' !! "tasks" = Some (tasksText [task1; task2; task3]).
Proof.
  split_and!.
  - apply (targetMissing _ _ (IdStr "Archive")); [done|]. by intros [].
  - intros Hrun. vm_compute in Hrun. discriminate Hrun.
  - eexists. split; [vm_compute; reflexivity|].
    split_and!; [done|done|done|]. by vm_compute.
Qed.

(** C3, as the code has it. The handler returns the state it was given,
    and does not throw, when nothing is under the card or the card
    itself is, when the card is of no task of the board, when the target
    is falsy, and when the target is the column the task is in. *)
Theorem move_noop event st :
  returnsEarly (tasks st) event → handleDragEnd event st = Normal st.
Proof.
  unfold handleDragEnd.
  destruct 1 as [Hover|Hover|Hsrc|o Hover Htgt|o c Hover Hsrc Htgt].
  - by rewrite Hover.
  - rewrite Hover. by rewrite decide_True.
  - rewrite (columnOf_absent _ _ Hsrc). destruct (over event); [|done].
    by case_decide.
  - rewrite Hover, Htgt. case_decide; [done|].
    destruct (columnOf _ _); [|done]. simpl. by rewrite orb_true_r.
  - rewrite Hover, Hsrc, Htgt. case_decide; [done|].
    by rewrite bool_decide_eq_true_2, orb_true_r.
Qed.

Lemma move_noop_witness :
  handleDragEnd {| active := IdNum 2; over := None |} loaded = Normal loaded ∧
  handleDragEnd {| active := IdNum 2; over := Some (IdNum 2) |} loaded = Normal loaded ∧
  handleDragEnd {| active := IdNum 9; over := Some (IdStr "Completed") |} loaded = Normal loaded ∧
  handleDragEnd {| active := IdNum 2; over := Some (IdNum 0) |} loaded = Normal loaded ∧
  handleDragEnd {| active := IdNum 2; over := Some (IdStr "In Progress") |} loaded = Normal loaded.
Proof.
  split_and!.
  - apply move_noop. by apply nothingOver.
  - apply move_noop. by apply overItself.
  - apply move_noop. apply noSourceColumn, Forall_forall.
    apply (bool_decide_unpack _). vm_compute. exact I.
  - apply move_noop. by apply (falsyTarget _ _ (IdNum 0)).
  - apply move_noop. by apply (sourceIsTarget _ _ (IdStr "In Progress") "In Progress").
Defined.

Lemma columnKey_inj : Inj (=) (=) columnKey.
Proof. intros [] []; by intros [=]. Qed.

Lemma allTasks_boardOf cols :
  allTasks (boardOf cols) = cols ToDo ++ cols InProgress ++ cols Completed.
Proof. unfold allTasks, boardOf. rewrite columns_eq. simpl. by rewrite app_nil_r. Qed.

Lemma boardOf_get cols c : obj_get (boardOf cols) (columnKey c) = Some (cols c).
Proof. unfold boardOf. rewrite columns_get. by destruct c. Qed.

Lemma boardOf_hasColumns cols : hasColumns (boardOf cols).
Proof. intros c. rewrite boardOf_get. eauto. Qed.

(** With unique identifiers, two tasks with the same identifier are in
    the same column. *)
Lemma uniqueIds_same_column cols c c' (x y : Task.t) :
  uniqueIds (boardOf cols) → x ∈ cols c → y ∈ cols c' →
  Task.id x = Task.id y → c = c'.
Proof.
  unfold uniqueIds. rewrite allTasks_boardOf, !fmap_app.
  intros Hnd Hx Hy Heq.
  apply NoDup_app in Hnd as (_ & H12 & Hnd).
  apply NoDup_app in Hnd as (_ & H23 & _).
  apply (list_elem_of_fmap_2 Task.id) in Hx, Hy. rewrite Heq in Hx.
  destruct c, c'; try done; exfalso.
  - apply (H12 _ Hx), elem_of_app. by left.
  - apply (H12 _ Hx), elem_of_app. by right.
  - apply (H12 _ Hy), elem_of_app. by left.
  - by apply (H23 _ Hx).
  - apply (H12 _ Hy), elem_of_app. by right.
  - by apply (H23 _ Hy).
Qed.

Lemma columnOf_boardOf cols c (x : Task.t) :
  uniqueIds (boardOf cols) → x ∈ cols c →
  columnOf (boardOf cols) (Task.id x) = Some (columnKey c).
Proof.
  intros Huniq Hx. unfold columnOf.
  change (Object_keys (boardOf cols)) with (columnKey <$> [ToDo; InProgress; Completed]).
  assert (Hhere : Array_some (λ task, Task.id task = Task.id x)
                    (default [] (obj_get (boardOf cols) (columnKey c)))).
  { rewrite boardOf_get. apply Array_some_true, Exists_exists. by exists x. }
  assert (Hnot : ∀ c', c' ≠ c →
            ¬ Array_some (λ task, Task.id task = Task.id x)
                (default [] (obj_get (boardOf cols) (columnKey c')))).
  { intros c' Hne. rewrite boardOf_get, Array_some_true, Exists_exists.
    intros (y & Hy & Heq). apply Hne. symmetry.
    by apply (uniqueIds_same_column cols c c' x y). }
  destruct c.
  - apply (Array_find_first _ [] ["In Progress"; "Completed"] "To Do"); [constructor|done].
  - apply (Array_find_first _ ["To Do"] ["Completed"] "In Progress"); [|done].
    repeat constructor. by apply (Hnot ToDo).
  - apply (Array_find_first _ ["To Do"; "In Progress"] [] "Completed"); [|done].
    repeat constructor; [by apply (Hnot ToDo)|by apply (Hnot InProgress)].
Qed.

(** C5. On a board with unique identifiers, dropping task [T] of column
    [A] onto another column [B], or onto a task of [B], takes [T] out of
    [A], whose other tasks keep their order, and puts [T], with the
    progress it had, behind the tasks of [B]; the third column stays. *)
Theorem move_across_columns (cols : ColumnId → list Task.t) (A B : ColumnId)
    (T : Task.t) (o : Id) (st : State) :
  tasks st = boardOf cols →
  uniqueIds (boardOf cols) →
  T ∈ cols A → A ≠ B →
  (o = IdStr (columnKey B) ∧
     (∀ task, task ∈ allTasks (boardOf cols) → Task.id task ≠ o)) ∨
  (∃ U, U ∈ cols B ∧ Task.id U = o) →
  ∃ l1 l2 st',
    handleDragEnd {| active := Task.id T; over := Some o |} st = Normal st' ∧
    cols A = l1 ++ T :: l2 ∧
    tasks st' =
      boardOf (λ c, if decide (c = A) then l1 ++ l2
                    else if decide (c = B) then cols B ++ [T]
                    else cols c) ∧
    Task.progress <$> last (column (tasks st') B) = Some (Task.progress T).
Proof.
  intros Hst Huniq HT HAB Hover.
  pose proof (columnOf_boardOf cols A T Huniq HT) as Hsrc.
  assert (Htgt : targetColumnOf (boardOf cols) o = IdStr (columnKey B)).
  { unfold targetColumnOf. destruct Hover as [[-> Hfresh]|(U & HU & <-)].
    - by rewrite columnOf_absent.
    - rewrite (columnOf_boardOf cols B U Huniq HU). by destruct B. }
  assert (Hne : Task.id T ≠ o).
  { destruct Hover as [[-> Hfresh]|(U & HU & <-)].
    - apply Hfresh. apply (allTasks_column _ (columnKey A) (cols A)); [|done].
      apply boardOf_get.
    - intros Heq. apply HAB. by apply (uniqueIds_same_column cols A B T U). }
  pose proof (uniqueIds_column _ _ _ Huniq (boardOf_get cols A)) as Hnd.
  destruct (unique_id_split (cols A) T Hnd HT) as (l1 & l2 & Hsplit & Hfind & Hfilter).
  exists l1, l2. eexists. split_and!; [|done| |].
  - unfold handleDragEnd. simpl. rewrite decide_False by done.
    rewrite Hst, Hsrc, Htgt.
    replace (negb (truthy (IdStr (columnKey A))) || negb (truthy (IdStr (columnKey B)))
             || bool_decide (IdStr (columnKey A) = IdStr (columnKey B))) with false.
    2: { symmetry. rewrite bool_decide_eq_false_2.
         - by destruct A, B.
         - intros [= Heq]. by apply columnKey_inj in Heq. }
    rewrite (moveTask_Normal _ _ _ _ _ _ (boardOf_get cols A) Hfind);
      [|apply own_not_inherited; cbn [ToString]; rewrite boardOf_get; eauto].
    rewrite (flatTasks_Normal _ (boardOf_hasColumns cols)). reflexivity.
  - simpl. rewrite Hfilter. unfold boardOf.
    destruct A, B; try done; reflexivity.
  - simpl. rewrite Hfilter. unfold boardOf, column.
    destruct A, B; try done; simpl; by rewrite last_snoc.
Qed.

Ltac decide_it :=
  unfold uniqueIds;
  match goal with |- ?P => apply (bool_decide_unpack P) end;
  vm_compute; exact I.

Lemma move_across_columns_witness :
  (∃ l1 l2 st',
     handleDragEnd {| active := IdNum 2; over := Some (IdStr "Completed") |} loaded
       = Normal st' ∧
     [task2] = l1 ++ task2 :: l2 ∧
     tasks st' = boardOf (λ c, if decide (c = InProgress) then l1 ++ l2
                               else if decide (c = Completed) then [task3; task2]
                               else sampleCols c) ∧
     Task.progress <$> last (column (tasks st') Completed) = Some 50%Z) ∧
  (∃ l1 l2 st',
     handleDragEnd {| active := IdNum 2; over := Some (IdNum 3) |} loaded
       = Normal st' ∧
     [task2] = l1 ++ task2 :: l2 ∧
     tasks st' = boardOf (λ c, if decide (c = InProgress) then l1 ++ l2
                               else if decide (c = Completed) then [task3; task2]
                               else sampleCols c) ∧
     Task.progress <$> last (column (tasks st') Completed) = Some 50%Z).
Proof.
  split.
  - apply (move_across_columns sampleCols InProgress Completed task2
             (IdStr "Completed") loaded).
    + reflexivity.
    + decide_it.
    + decide_it.
    + done.
    + left. split; [done|]. apply Forall_forall. decide_it.
  - apply (move_across_columns sampleCols InProgress Completed task2
             (IdNum 3) loaded).
    + reflexivity.
    + decide_it.
    + decide_it.
    + done.
    + right. exists task3. split; [decide_it|done].
Defined.

Lemma handleDragEnd_writes event st st' :
  hasColumns (tasks st) → handleDragEnd event st = Normal st' →
  st' = st ∨
  localStorage st' =
    <["tasks" := tasksText (column (tasks st) ToDo ++ column (tasks st) InProgress ++
                            column (tasks st) Completed)]> (localStorage st).
Proof.
  intros Hcols Hrun.
  destruct (handleDragEnd_cases event st Hcols)
    as [H|[(o & _ & _ & H)|(o & c & source & moved & _ & _ & _ & _ & _ & _ & H)]];
    rewrite H in Hrun; [|done|]; injection Hrun as <-; [by left|by right].
Qed.

(** The board has its three columns from the start and after loading. *)
Lemma categorizedTasks_hasColumns (storedTasks : list Task.t) :
  hasColumns (categorizedTasks storedTasks).
Proof. intros c. rewrite categorizedTasks_column. eauto. Qed.

Lemma initial_hasColumns ls : hasColumns (tasks (initial ls)).
Proof. apply (boardOf_hasColumns (λ _, [])). Qed.

(** The three columns stay: a drop never removes a property. *)
Lemma handleDragEnd_hasColumns event st st' :
  hasColumns (tasks st) → handleDragEnd event st = Normal st' →
  hasColumns (tasks st').
Proof.
  intros Hcols Hrun.
  destruct (handleDragEnd_cases event st Hcols)
    as [H|[(o & _ & _ & H)|(o & c & source & moved & _ & _ & _ & _ & _ & _ & H)]];
    rewrite H in Hrun; [|done|]; injection Hrun as <-; [done|].
  intros col. simpl. rewrite !obj_get_set.
  repeat case_decide; eauto.
Qed.

(** A drop on a droppable that is neither a task nor a column of the
    board makes a column of that name. *)
Lemma drop_on_unknown_column :
  ∃ st',
    handleDragEnd {| active := IdNum 2; over := Some (IdStr "Archive") |} loaded
      = Normal st' ∧
    Object_keys (tasks st') = ["To Do"; "In Progress"; "Completed"; "Archive"] ∧
    obj_get (tasks st') "Archive" = Some [task2].
Proof. eexists. split; [vm_compute; reflexivity|]. by split. Qed.

(** Two tasks of a column with the same identifier: [filter] takes both
    out, [find] returns the first, and the second is lost. *)
Lemma duplicate_identifier_lost :
  let twin := Task.mk (IdNum 2) "copy" 60 None in
  let st := setTasks (columns [task1] [task2; twin] [task3]) (initial ∅) in
  ∃ st',
    handleDragEnd {| active := IdNum 2; over := Some (IdStr "Completed") |} st
      = Normal st' ∧
    tasks st' = columns [task1] [] [task3; task2].
Proof. eexists. split; [vm_compute; reflexivity|reflexivity]. Qed.

(** C1. After task 2 is moved from In Progress to Completed the board
    flattens to tasks 1, 3, 2, while the text written to [localStorage]
    is that of tasks 1, 2, 3: the board before the move. *)
Theorem move_writes_board_before_move :
  ∃ st',
    handleDragEnd {| active := IdNum 2; over := Some (IdStr "Completed") |} loaded
      = Normal st' ∧
    tasks st' = columns [task1] [] [task3; task2] ∧
    flatTasks (tasks st') = Normal [task1; task3; task2] ∧
    localStorage st' !! "tasks" = Some (tasksText [task1; task2; task3]) ∧
    localStorage st' !! "tasks" ≠ Some (tasksText [task1; task3; task2]).
Proof.
  eexists. split; [vm_compute; reflexivity|].
  split_and!; [reflexivity|reflexivity|by vm_compute|by vm_compute].
Qed.

(** ** The text of stored tasks *)

Lemma lex_run_app s1 s2 x :
  lex_run (s1 +:+ s2) x = lex_run s1 x ≫= lex_run s2.
Proof.
  revert x. induction s1 as [|c s1 IH]; intros x; simpl; [done|].
  destruct (lex_step x.1 x.2 c) as [x'|e]; [apply IH|done].
Qed.

Lemma lex_lex_run text st acc :
  lex text st acc = lex_run text (st, acc) ≫= λ x, lex_end x.1 x.2.
Proof.
  revert st acc. induction text as [|c text IH]; intros st acc; simpl; [done|].
  destruct (lex_step st acc c) as [[st' acc']|e]; [apply IH|done].
Qed.

Lemma lex_run_escape c rest s acc :
  lex_run (string_of_list_ascii (escape c ++ rest)) (LStr s, acc) =
  lex_run (string_of_list_ascii rest) (LStr (c :: s), acc).
Proof.
  destruct c as [[] [] [] [] [] [] [] []]; reflexivity.
Qed.

Lemma lex_run_escaped cs s acc :
  lex_run (string_of_list_ascii (flat_map escape cs ++ [dquote])) (LStr s, acc) =
  Normal (LStart, TString (string_of_list_ascii (rev s ++ cs)) :: acc).
Proof.
  revert s. induction cs as [|c cs IH]; intros s.
  - by rewrite app_nil_r.
  - simpl flat_map. rewrite <- app_assoc, lex_run_escape, IH.
    simpl. by rewrite <- app_assoc.
Qed.

Lemma num_step_delimiter st a c : delimiter c → num_step st a c = None.
Proof.
  intros Hc. unfold num_step.
  assert (Hd : dec_digit c = None).
  { unfold dec_digit, digit_val. fold (code c).
    rewrite decide_False; [done|]. unfold delimiter in Hc. lia. }
  rewrite Hd.
  assert (Hn : ∀ n : N, (n = 46 ∨ n = 101 ∨ n = 69 ∨ n = 43 ∨ n = 45)%N →
                bool_decide (code c = n) = false).
  { intros n Hn. apply bool_decide_eq_false. unfold delimiter in Hc. lia. }
  rewrite !Hn by lia. by destruct st.
Qed.

Lemma lex_step_delimiter x c :
  ready x → delimiter c → lex_step x.1 x.2 c = start_step c (flushed x).
Proof.
  destruct x as [[] acc]; simpl; try done.
  intros Hfinal Hc. unfold flushed. simpl.
  by rewrite num_step_delimiter, Hfinal.
Qed.

Lemma lex_run_quote s x :
  ready x → lex_run (quote s) x = Normal (LStart, TString s :: flushed x).
Proof.
  intros Hx. unfold quote.
  change (string_of_list_ascii (dquote :: ?l)) with (String dquote (string_of_list_ascii l)).
  cbn [lex_run].
  rewrite lex_step_delimiter; [|done|by left].
  change (start_step dquote (flushed x)) with (Normal (LStr [], flushed x)).
  cbv beta iota. rewrite lex_run_escaped. simpl. by rewrite string_of_list_ascii_of_string.
Qed.

(** The digits of a positive number, read after the sign if there is one. *)
Lemma lex_run_digits (sign : bool) (x : N) (s : string) acc :
  (0 < x)%N →
  lex_run (pretty_N_go x s)
    (if sign then LNum NMinus (NumAcc true 0 0 false 0) else LStart, acc) =
  lex_run s (LNum NInt (NumAcc sign (Z.of_N x) 0 false 0), acc).
Proof.
  revert s. induction (N.lt_wf_0 x) as [x _ IH]; intros s Hx.
  rewrite pretty_N_go_step by done.
  assert (Hmod : (x `mod` 10 < 10)%N) by (apply N.mod_lt; lia).
  assert (Hdm : x = (10 * (x `div` 10) + x `mod` 10)%N) by (apply N.div_mod; lia).
  destruct (decide (x `div` 10 = 0)%N) as [Hz|Hnz].
  - rewrite Hz, pretty_N_go_0.
    assert (Hr : (x `mod` 10 = x)%N) by lia. rewrite Hr.
    assert (∃ k : nat, x = N.of_nat k ∧ k < 10) as (k & -> & Hk)
      by (exists (N.to_nat x); lia).
    clear IH Hz Hdm Hr Hmod.
    destruct sign;
      do 10 (destruct k as [|k]; [first [reflexivity | lia]|]); lia.
  - rewrite IH; [|apply N.div_lt; lia|lia].
    set (q := (x `div` 10)%N) in *. set (r := (x `mod` 10)%N) in *.
    assert (Hx' : Z.of_N x = (10 * Z.of_N q + Z.of_N r)%Z) by lia.
    rewrite Hx'.
    assert (∃ k : nat, r = N.of_nat k ∧ k < 10) as (k & Hr & Hk)
      by (exists (N.to_nat r); lia).
    clearbody r. subst r. clear Hdm Hx' IH Hmod.
    do 10 (destruct k as [|k]; [reflexivity|]). lia.
Qed.

Lemma lex_run_pretty (n : Z) acc :
  ∃ st a, num_final st = true ∧ num_token a = TNumber n 0 ∧
    lex_run (pretty n) (LStart, acc) = Normal (LNum st a, acc).
Proof.
  destruct n as [|p|p].
  - by exists NZero, (NumAcc false 0 0 false 0).
  - exists NInt, (NumAcc false (Z.pos p) 0 false 0). split_and!; [done|done|].
    unfold pretty, pretty_Z, pretty, pretty_positive, pretty, pretty_N.
    rewrite decide_False by done.
    by rewrite (lex_run_digits false (N.pos p) EmptyString acc).
  - exists NInt, (NumAcc true (Z.pos p) 0 false 0). split_and!; [done|done|].
    unfold pretty, pretty_Z, pretty, pretty_positive, pretty, pretty_N.
    rewrite decide_False by done.
    change (lex_run (pretty_N_go (N.pos p) EmptyString)
              (LNum NMinus (NumAcc true 0 0 false 0), acc) =
            Normal (LNum NInt (NumAcc true (Z.pos p) 0 false 0), acc)).
    by rewrite (lex_run_digits true (N.pos p) EmptyString acc).
Qed.

Lemma string_app_assoc (s1 s2 s3 : string) :
  (s1 +:+ s2) +:+ s3 = s1 +:+ (s2 +:+ s3).
Proof. induction s1 as [|c s1 IH]; [done|]. exact (f_equal (String c) IH). Qed.

Lemma lex_run_quote_start s rest acc :
  lex_run (quote s +:+ rest) (LStart, acc) =
  lex_run rest (LStart, TString s :: acc).
Proof. by rewrite lex_run_app, lex_run_quote. Qed.

Lemma lex_run_pretty_delimiter (n : Z) c rest acc :
  delimiter c →
  lex_run (pretty n +:+ String c rest) (LStart, acc) =
  match start_step c (TNumber n 0 :: acc) with
  | Normal x => lex_run rest x
  | Throw e => Throw e
  end.
Proof.
  intros Hc. rewrite lex_run_app.
  destruct (lex_run_pretty n acc) as (st & a & Hfinal & Htok & ->).
  simpl. by rewrite num_step_delimiter, Hfinal, Htok.
Qed.

Lemma string_app_cons c (s rest : string) :
  String c s +:+ rest = String c (s +:+ rest).
Proof. reflexivity. Qed.

Lemma string_app_nil_l (s : string) : EmptyString +:+ s = s.
Proof. reflexivity. Qed.

Lemma lex_run_lbrace rest acc :
  lex_run (String "{" rest) (LStart, acc) = lex_run rest (LStart, TLBrace :: acc).
Proof. reflexivity. Qed.

Lemma lex_run_rbrace rest acc :
  lex_run (String "}" rest) (LStart, acc) = lex_run rest (LStart, TRBrace :: acc).
Proof. reflexivity. Qed.

Lemma lex_run_lbrack rest acc :
  lex_run (String "[" rest) (LStart, acc) = lex_run rest (LStart, TLBrack :: acc).
Proof. reflexivity. Qed.

Lemma lex_run_rbrack rest acc :
  lex_run (String "]" rest) (LStart, acc) = lex_run rest (LStart, TRBrack :: acc).
Proof. reflexivity. Qed.

Lemma lex_run_colon rest acc :
  lex_run (String ":" rest) (LStart, acc) = lex_run rest (LStart, TColon :: acc).
Proof. reflexivity. Qed.

Lemma lex_run_comma rest acc :
  lex_run (String "," rest) (LStart, acc) = lex_run rest (LStart, TComma :: acc).
Proof. reflexivity. Qed.

Lemma lex_run_pretty_comma (n : Z) rest acc :
  lex_run (pretty n +:+ String "," rest) (LStart, acc) =
  lex_run rest (LStart, TComma :: TNumber n 0 :: acc).
Proof. rewrite lex_run_pretty_delimiter; [done|]. right. by left. Qed.

Lemma lex_run_pretty_rbrace (n : Z) rest acc :
  lex_run (pretty n +:+ String "}" rest) (LStart, acc) =
  lex_run rest (LStart, TRBrace :: TNumber n 0 :: acc).
Proof. rewrite lex_run_pretty_delimiter; [done|]. do 6 right. done. Qed.

Create Rewrite HintDb scan.
#[local] Hint Rewrite string_app_assoc string_app_cons string_app_nil_l
  lex_run_lbrace lex_run_rbrace lex_run_lbrack lex_run_rbrack lex_run_colon
  lex_run_comma lex_run_quote_start lex_run_pretty_comma lex_run_pretty_rbrace
  : scan.

Lemma lex_run_task (task : Task.t) rest acc :
  lex_run (stringify (task_to_json task) +:+ rest) (LStart, acc) =
  lex_run rest (LStart, rev (task_tokens task) ++ acc).
Proof.
  destruct task as [[n|s] ttl p [d|]];
    cbn [stringify task_to_json Task.id Task.title Task.progress Task.deadline
         app map fst snd String.concat id_to_json];
    unfold print_number; rewrite !decide_True by done;
    rewrite !Z.pow_0_r, !Z.mul_1_r;
    autorewrite with scan; reflexivity.
Qed.

Lemma lex_run_tasks (l : list Task.t) rest acc :
  lex_run (String.concat "," (map stringify (task_to_json <$> l)) +:+ rest)
          (LStart, acc) =
  lex_run rest (LStart, rev (tasks_tokens l) ++ acc).
Proof.
  revert acc. induction l as [|task l IH]; intros acc; [done|].
  destruct l as [|task' l].
  - apply lex_run_task.
  - change (lex_run ((stringify (task_to_json task) +:+ "," +:+
             String.concat "," (map stringify (task_to_json <$> task' :: l))) +:+ rest)
            (LStart, acc) =
            lex_run rest (LStart, rev (task_tokens task ++ TComma :: tasks_tokens (task' :: l)) ++ acc)).
    rewrite string_app_assoc, lex_run_task.
    autorewrite with scan. rewrite IH.
    rewrite rev_app_distr. cbn [rev]. by rewrite <- !app_assoc.
Qed.

Lemma lex_tasksText (l : list Task.t) :
  lex (tasksText l) LStart [] = Normal (TLBrack :: tasks_tokens l ++ [TRBrack]).
Proof.
  rewrite lex_lex_run. unfold tasksText.
  cbn [stringify]. autorewrite with scan.
  rewrite lex_run_tasks. autorewrite with scan. simpl.
  by rewrite rev_app_distr, rev_involutive.
Qed.

(** *** Parsing the tokens *)

Lemma parse_tokens_task (task : Task.t) done rest :
  parse_tokens (task_tokens task ++ rest) (PValue [InArr done]) =
  parse_tokens rest (PArrNext [] (task_to_json task :: done)).
Proof. destruct task as [[n|s] ttl p [d|]]; reflexivity. Qed.

Lemma parse_tokens_tasks (l : list Task.t) task done :
  parse_tokens (tasks_tokens (task :: l) ++ [TRBrack]) (PValue [InArr done]) =
  Normal (JArr (rev done ++ (task_to_json <$> task :: l))).
Proof.
  revert task done. induction l as [|task' l IH]; intros task done.
  - cbn [tasks_tokens]. by rewrite parse_tokens_task.
  - change (tasks_tokens (task :: task' :: l))
      with (task_tokens task ++ TComma :: tasks_tokens (task' :: l)).
    rewrite <- app_assoc, parse_tokens_task.
    change (parse_tokens ((TComma :: tasks_tokens (task' :: l)) ++ [TRBrack])
              (PArrNext [] (task_to_json task :: done)))
      with (parse_tokens (tasks_tokens (task' :: l) ++ [TRBrack])
              (PValue [InArr (task_to_json task :: done)])).
    rewrite IH. simpl. by rewrite <- app_assoc.
Qed.

Lemma parse_tokens_task_first (task : Task.t) rest :
  parse_tokens (task_tokens task ++ rest) (PArrFirst []) =
  parse_tokens rest (PArrNext [] [task_to_json task]).
Proof. destruct task as [[n|s] ttl p [d|]]; reflexivity. Qed.

(** [JSON.parse] reads the text [JSON.stringify] writes for tasks. *)
Lemma parse_tasksText (l : list Task.t) :
  JSON.parse (tasksText l) = Normal (JArr (task_to_json <$> l)).
Proof.
  unfold JSON.parse. rewrite lex_tasksText.
  change (parse_tokens (tasks_tokens l ++ [TRBrack]) (PArrFirst []) =
          Normal (JArr (task_to_json <$> l))).
  destruct l as [|task [|task' l]]; [done| |].
  - cbn [tasks_tokens]. by rewrite parse_tokens_task_first.
  - change (tasks_tokens (task :: task' :: l))
      with (task_tokens task ++ TComma :: tasks_tokens (task' :: l)).
    rewrite <- app_assoc, parse_tokens_task_first.
    change (parse_tokens (tasks_tokens (task' :: l) ++ [TRBrack])
              (PValue [InArr [task_to_json task]]) =
            Normal (JArr (task_to_json <$> task :: task' :: l))).
    by rewrite parse_tokens_tasks.
Qed.

Lemma task_of_to_json (task : Task.t) : task_of_json (task_to_json task) = Some task.
Proof.
  destruct task as [[n|s] ttl p [d|]]; unfold task_of_json; simpl;
    unfold json_integer; simpl; by rewrite ?Z.mul_1_r.
Qed.

Lemma tasks_of_to_json (l : list Task.t) :
  mapM task_of_json (task_to_json <$> l) = Some l.
Proof.
  induction l as [|task l IH]; [done|].
  change ((task_of_json (task_to_json task) ≫= λ y,
           mapM task_of_json (task_to_json <$> l) ≫= λ k, mret (y :: k)) =
          Some (task :: l)).
  by rewrite task_of_to_json, IH.
Qed.

(** ** Loading *)

(** A stored text that is not JSON makes [loadAll] throw. *)
Lemma loadAll_malformed_throws :
  loadAll {[ "tasks" := "{oops" ]} = Throw SyntaxError ∧
  loadAll {[ "tasks" := "{oops" ]} ≠ Normal (JArr []).
Proof. split; [by vm_compute|by vm_compute]. Qed.

Lemma loadAll_stored (ls : gmap string string) (l : list Task.t) :
  ls !! "tasks" = Some (tasksText l) →
  loadAll ls = Normal (JArr (task_to_json <$> l)).
Proof.
  intros H. unfold loadAll, getItem. rewrite H. simpl.
  by rewrite parse_tasksText.
Qed.

(** The effect on mounting, when tasks are stored: they are put into
    their columns and scanned for deadlines. *)
Lemma loadTasks_stored today tomorrowStr st (l : list Task.t) :
  localStorage st !! "tasks" = Some (tasksText l) →
  loadTasks today tomorrowStr st =
  Normal (Some (checkDeadlines today tomorrowStr l
                  (setTasks (categorizedTasks l) st))).
Proof.
  intros H. unfold loadTasks. rewrite (loadAll_stored _ l H). simpl.
  by rewrite tasks_of_to_json.
Qed.

(** The text determines the tasks. *)
Lemma tasksText_inj : Inj (=) (=) tasksText.
Proof.
  intros l1 l2 Heq.
  pose proof (parse_tasksText l1) as H1. rewrite Heq, parse_tasksText in H1.
  injection H1 as H1.
  pose proof (tasks_of_to_json l1) as H2. rewrite <- H1, tasks_of_to_json in H2.
  by injection H2.
Qed.

(** C2, as the code has it. [loadAll] returns the empty array when
    nothing is stored, returns the stored tasks when the text is the one
    written for them, in general returns what a stored JSON text denotes
    (the empty array for a falsy value), and passes on the error of
    [JSON.parse] when the stored text is not JSON. *)
Theorem loadAll_results (ls : gmap string string) :
  (ls !! "tasks" = None → loadAll ls = Normal (JArr [])) ∧
  (∀ l, ls !! "tasks" = Some (tasksText l) →
     loadAll ls = Normal (JArr (task_to_json <$> l)) ∧
     mapM task_of_json (task_to_json <$> l) = Some l) ∧
  (∀ text v, ls !! "tasks" = Some text → JSON.parse text = Normal v →
     loadAll ls = Normal (if json_truthy v then v else JArr [])) ∧
  (∀ text e, ls !! "tasks" = Some text → JSON.parse text = Throw e →
     loadAll ls = Throw e).
Proof.
  split_and!.
  - unfold loadAll, getItem. intros ->. reflexivity.
  - intros l H. split; [by apply loadAll_stored|apply tasks_of_to_json].
  - unfold loadAll, getItem. intros text v -> Hparse. simpl. by rewrite Hparse.
  - unfold loadAll, getItem. intros text e -> Hparse. simpl. by rewrite Hparse.
Qed.

Lemma loadAll_results_witness :
  loadAll ∅ = Normal (JArr []) ∧
  loadAll {[ "tasks" := tasksText [task1; task2; task3] ]} =
    Normal (JArr (task_to_json <$> [task1; task2; task3])) ∧
  loadAll {[ "tasks" := "0" ]} = Normal (JArr []) ∧
  loadAll {[ "tasks" := "[1,]" ]} = Throw SyntaxError.
Proof.
  split_and!.
  - by apply (loadAll_results ∅).
  - by apply (loadAll_results {[ "tasks" := tasksText [task1; task2; task3] ]}).
  - by apply (loadAll_results {[ "tasks" := "0" ]} ) with (text := "0") (v := JNum 0 0).
  - by apply (loadAll_results {[ "tasks" := "[1,]" ]}) with (text := "[1,]").
Defined.

(** ** What a drop stores *)

(** What is written is the board the handler was rendered with: it is
    the board after the move only if flattening gives the same tasks. *)
Lemma handleDragEnd_stale event st st' :
  hasColumns (tasks st) → handleDragEnd event st = Normal st' → st' ≠ st →
  ∃ before after,
    flatTasks (tasks st) = Normal before ∧
    flatTasks (tasks st') = Normal after ∧
    localStorage st' !! "tasks" = Some (tasksText before) ∧
    (localStorage st' !! "tasks" = Some (tasksText after) → after = before).
Proof.
  intros Hcols Hrun Hne.
  pose proof (handleDragEnd_hasColumns _ _ _ Hcols Hrun) as Hcols'.
  destruct (handleDragEnd_writes _ _ _ Hcols Hrun) as [->|Hls]; [done|].
  eexists _, _. split_and!.
  - by apply flatTasks_Normal.
  - by apply flatTasks_Normal.
  - rewrite Hls. apply lookup_insert_eq.
  - rewrite Hls, lookup_insert_eq. intros Heq.
    apply (inj Some) in Heq. by apply tasksText_inj in Heq.
Qed.

(** * The rest of the code *)

(** ** Moves, chart and view of the dashboard *)


Lemma dropsOn_target cols B o :
  uniqueIds (boardOf cols) → dropsOn cols B o →
  targetColumnOf (boardOf cols) o = IdStr (columnKey B).
Proof.
  intros Huniq [[-> Hfresh]|(U & HU & <-)]; unfold targetColumnOf.
  - by rewrite columnOf_absent.
  - rewrite (columnOf_boardOf cols B U Huniq HU). by destruct B.
Qed.

Lemma dropsOn_other cols A B (T : Task.t) o :
  uniqueIds (boardOf cols) → T ∈ cols A → A ≠ B → dropsOn cols B o →
  Task.id T ≠ o.
Proof.
  intros Huniq HT HAB [[-> Hfresh]|(U & HU & <-)].
  - apply Hfresh. apply (allTasks_column _ (columnKey A) (cols A)); [|done].
    apply boardOf_get.
  - intros Heq. apply HAB. by apply (uniqueIds_same_column cols A B T U).
Qed.

(** A drop of a task on another column, in full. *)
Lemma handleDragEnd_moves cols A B (T : Task.t) o st :
  tasks st = boardOf cols → uniqueIds (boardOf cols) →
  T ∈ cols A → A ≠ B → dropsOn cols B o →
  handleDragEnd {| active := Task.id T; over := Some o |} st =
  Normal (setItem "tasks" (tasksText (allTasks (boardOf cols)))
            (setTasks (boardOf (afterMove cols A B T)) st)).
Proof.
  intros Hst Huniq HT HAB Hover.
  pose proof (columnOf_boardOf cols A T Huniq HT) as Hsrc.
  pose proof (dropsOn_target cols B o Huniq Hover) as Htgt.
  pose proof (dropsOn_other cols A B T o Huniq HT HAB Hover) as Hne.
  pose proof (uniqueIds_column _ _ _ Huniq (boardOf_get cols A)) as Hnd.
  destruct (unique_id_split (cols A) T Hnd HT) as (l1 & l2 & Hsplit & Hfind & Hfilter).
  unfold handleDragEnd. simpl. rewrite decide_False by done.
  rewrite Hst, Hsrc, Htgt.
  replace (negb (truthy (IdStr (columnKey A))) || negb (truthy (IdStr (columnKey B)))
           || bool_decide (IdStr (columnKey A) = IdStr (columnKey B))) with false.
  2: { symmetry. rewrite bool_decide_eq_false_2.
       - by destruct A, B.
       - intros [= Heq]. by apply columnKey_inj in Heq. }
  rewrite (moveTask_Normal _ _ _ _ _ _ (boardOf_get cols A) Hfind);
    [|apply own_not_inherited; cbn [ToString]; rewrite boardOf_get; eauto].
  rewrite (flatTasks_Normal _ (boardOf_hasColumns cols)).
  rewrite allTasks_boardOf. unfold column. rewrite !boardOf_get. simpl.
  do 2 f_equal. unfold afterMove, boardOf.
  destruct A, B; try done; reflexivity.
Qed.

Lemma afterMove_perm cols A B (T : Task.t) :
  uniqueIds (boardOf cols) → T ∈ cols A → A ≠ B →
  allTasks (boardOf (afterMove cols A B T)) ≡ₚ allTasks (boardOf cols).
Proof.
  intros Huniq HT HAB.
  pose proof (uniqueIds_column _ _ _ Huniq (boardOf_get cols A)) as Hnd.
  destruct (unique_id_split (cols A) T Hnd HT) as (l1 & l2 & Hsplit & _ & Hfilter).
  rewrite !allTasks_boardOf. unfold afterMove. rewrite Hfilter.
  destruct A, B; try done; simpl; rewrite Hsplit;
    rewrite <- ?Permutation_cons_append; rewrite <- ?app_assoc; simpl;
    rewrite <- ?Permutation_middle; try done.
  all: rewrite ?app_assoc; rewrite <- ?Permutation_middle; rewrite <- ?app_assoc; try done.
Qed.


Lemma afterMove_target cols A B (T : Task.t) :
  A ≠ B → afterMove cols A B T B = cols B ++ [T].
Proof. intros H. unfold afterMove. by rewrite decide_False, decide_True. Qed.


(** A drop whose target is the column the task is in does nothing. *)
Lemma handleDragEnd_within cols B (T : Task.t) o st :
  tasks st = boardOf cols → uniqueIds (boardOf cols) →
  T ∈ cols B → dropsOn cols B o →
  handleDragEnd {| active := Task.id T; over := Some o |} st = Normal st.
Proof.
  intros Hst Huniq HT Hover. unfold handleDragEnd. simpl.
  case_decide; [done|].
  rewrite Hst, (columnOf_boardOf cols B T Huniq HT),
          (dropsOn_target cols B o Huniq Hover).
  rewrite (bool_decide_eq_true_2 (IdStr (columnKey B) = IdStr (columnKey B))) by done.
  by rewrite orb_true_r.
Qed.








Lemma chartData_boardOf cols :
  chartData (boardOf cols) =
  Normal {| labels := ["To Do"; "In Progress"; "Completed"];
            data := [length (cols ToDo); length (cols InProgress);
                     length (cols Completed)] |}.
Proof. reflexivity. Qed.

(** X3. After a task went from column [A] to column [B] the bar of [A]
    is one lower, the bar of [B] one higher, the third bar as before,
    and the bars still add up to the number of tasks. *)
Theorem chart_after_drop cols A B (T : Task.t) o st st' :
  tasks st = boardOf cols → uniqueIds (boardOf cols) →
  T ∈ cols A → A ≠ B → dropsOn cols B o →
  handleDragEnd {| active := Task.id T; over := Some o |} st = Normal st' →
  ∃ bars : ColumnId → nat,
    chartData (tasks st') =
      Normal {| labels := ["To Do"; "In Progress"; "Completed"];
                data := [bars ToDo; bars InProgress; bars Completed] |} ∧
    S (bars A) = length (cols A) ∧
    bars B = S (length (cols B)) ∧
    (∀ c, c ≠ A → c ≠ B → bars c = length (cols c)) ∧
    bars ToDo + bars InProgress + bars Completed = length (allTasks (boardOf cols)).
Proof.
  intros Hst Huniq HT HAB Hover Hrun.
  rewrite (handleDragEnd_moves cols A B T o st Hst Huniq HT HAB Hover) in Hrun.
  injection Hrun as <-. simpl.
  exists (λ c, length (afterMove cols A B T c)).
  split; [exact (chartData_boardOf (afterMove cols A B T))|].
  pose proof (uniqueIds_column _ _ _ Huniq (boardOf_get cols A)) as Hnd.
  destruct (unique_id_split (cols A) T Hnd HT) as (l1 & l2 & Hsplit & _ & Hfilter).
  assert (HA : S (length (afterMove cols A B T A)) = length (cols A)).
  { unfold afterMove. rewrite decide_True by done.
    rewrite Hfilter, Hsplit, !length_app. simpl. lia. }
  assert (HB : length (afterMove cols A B T B) = S (length (cols B))).
  { rewrite afterMove_target by done. rewrite length_app. simpl. lia. }
  assert (HC : ∀ c, c ≠ A → c ≠ B → length (afterMove cols A B T c) = length (cols c)).
  { intros c ? ?. unfold afterMove. by rewrite !decide_False. }
  split_and!; [done..|].
  rewrite <- (Permutation_length (afterMove_perm cols A B T Huniq HT HAB)).
  rewrite allTasks_boardOf, !length_app. lia.
Qed.

Lemma chart_after_drop_witness :
  ∃ bars : ColumnId → nat,
    chartData (tasks movedSample) =
      Normal {| labels := ["To Do"; "In Progress"; "Completed"];
                data := [bars ToDo; bars InProgress; bars Completed] |} ∧
    bars ToDo = 1 ∧ bars InProgress = 0 ∧ bars Completed = 2.
Proof.
  destruct (chart_after_drop sampleCols InProgress Completed task2
              (IdStr "Completed") loaded movedSample)
    as (bars & Hchart & HA & HB & HC & _).
  - reflexivity.
  - decide_it.
  - decide_it.
  - done.
  - left. split; [done|]. apply Forall_forall. decide_it.
  - vm_compute. reflexivity.
  - exists bars. split_and!; [done| | |done].
    + by apply HC.
    + simpl in HA. lia.
Defined.


(** X4. For the board built from the stored tasks the bars count the
    tasks of each bracket of progress and add up to the number of
    stored tasks. *)
Theorem chart_after_load (storedTasks : list Task.t) :
  ∃ toDo inProgress completed,
    chartData (categorizedTasks storedTasks) =
      Normal {| labels := ["To Do"; "In Progress"; "Completed"];
                data := [toDo; inProgress; completed] |} ∧
    toDo = length (filter (λ task, Task.progress task ≤ 40)%Z storedTasks) ∧
    completed = length (filter (λ task, Task.progress task > 80)%Z storedTasks) ∧
    toDo + inProgress + completed = length storedTasks.
Proof.
  exists (length (filter (λ task, Task.progress task ≤ 40)%Z storedTasks)),
    (length (filter (λ task, Task.progress task > 40 ∧ Task.progress task ≤ 80)%Z
                    storedTasks)),
    (length (filter (λ task, Task.progress task > 80)%Z storedTasks)).
  split; [reflexivity|]. split_and!; [done..|].
  induction storedTasks as [|task l IH]; [done|].
  rewrite !filter_cons. repeat case_decide; simpl; lia.
Qed.

(** ** The filtered view *)

Lemma filter_key {V} (o : list (string * V)) (k : string) :
  NoDup (Object_keys o) →
  filter (λ kv, kv.1 = k) o =
  match obj_get o k with Some v => [(k, v)] | None => [] end.
Proof.
  unfold Object_keys. induction o as [|[k' v'] o IH]; [done|].
  rewrite fmap_cons. intros Hnd. apply NoDup_cons in Hnd as [Hk' Hnd].
  rewrite obj_get_cons, filter_cons. specialize (IH Hnd). simpl in *.
  destruct (decide (k' = k)) as [->|Hne]; [|done].
  apply (obj_get_None k o) in Hk'. rewrite Hk' in IH. by rewrite IH.
Qed.

Lemma Object_fromEntries_one {V} (k : string) (v : V) :
  Object_fromEntries [(k, v)] = [(k, v)].
Proof.
  unfold Object_fromEntries, obj_set. simpl. by destruct (array_index k).
Qed.

Lemma filteredTasks_one (st : State) :
  NoDup (Object_keys (tasks st)) →
  taskStatusFilter st ≠ DEFAULT_FILTER_OPTION →
  filteredTasks st =
  match obj_get (tasks st) (taskStatusFilter st) with
  | Some col => [(taskStatusFilter st, col)]
  | None => []
  end.
Proof.
  intros Hnd Hf. unfold filteredTasks, Object_entries.
  rewrite decide_False by done. rewrite (filter_key _ _ Hnd).
  destruct (obj_get _ _); [apply Object_fromEntries_one|done].
Qed.

(** X5. With a filter other than [all] the view is the one column of
    that name with its tasks as they are on the board, and no column at
    all when the board has no column of that name; selecting a status
    other than [all] that is not the filter already, from [all] or from
    another filter, shows the column of that status. *)
Theorem filter_shows_one_column (st : State) :
  NoDup (Object_keys (tasks st)) →
  (taskStatusFilter st ≠ DEFAULT_FILTER_OPTION →
   filteredTasks st =
     match obj_get (tasks st) (taskStatusFilter st) with
     | Some col => [(taskStatusFilter st, col)]
     | None => []
     end) ∧
  ∀ status, status ≠ DEFAULT_FILTER_OPTION → status ≠ taskStatusFilter st →
    filteredTasks (selectStatusFilter status st) =
    match obj_get (tasks st) status with
    | Some col => [(status, col)]
    | None => []
    end.
Proof.
  intros Hnd. split; [by apply filteredTasks_one|].
  intros status Hs Hne. unfold selectStatusFilter.
  rewrite decide_False by done. by apply (filteredTasks_one (setTaskStatusFilter status st)).
Qed.

Lemma filter_shows_one_column_witness :
  filteredTasks (setTaskStatusFilter "Completed" loaded) = [("Completed", [task3])] ∧
  filteredTasks (selectStatusFilter "In Progress" loaded) = [("In Progress", [task2])] ∧
  filteredTasks (selectStatusFilter "Archive" (setTaskStatusFilter "Completed" loaded))
    = [].
Proof.
  split_and!.
  - by apply (filter_shows_one_column (setTaskStatusFilter "Completed" loaded));
      [decide_it|].
  - by apply (filter_shows_one_column loaded); [decide_it| |].
  - by apply (filter_shows_one_column (setTaskStatusFilter "Completed" loaded));
      [decide_it| |].
Defined.


Lemma filteredTasks_entry (st : State) k col :
  NoDup (Object_keys (tasks st)) →
  obj_get (filteredTasks st) k = Some col → obj_get (tasks st) k = Some col.
Proof.
  intros Hnd. destruct (decide (taskStatusFilter st = DEFAULT_FILTER_OPTION)) as [Hf|Hf].
  - unfold filteredTasks. by rewrite decide_True.
  - rewrite (filteredTasks_one st Hnd Hf).
    destruct (obj_get (tasks st) (taskStatusFilter st)) as [col'|] eqn:Hget; [|done].
    rewrite obj_get_cons. case_decide; [|done]. by intros [= <-]; subst.
Qed.

Lemma columnIds_key (st : State) o :
  NoDup (Object_keys (tasks st)) → o ∈ columnIds st →
  ∃ k, o = IdStr k ∧ k ∈ Object_keys (tasks st).
Proof.
  intros Hnd Ho. unfold columnIds in Ho.
  apply list_elem_of_fmap in Ho as (k & -> & Hk). exists k. split; [done|].
  apply obj_get_is_Some in Hk as [col Hcol].
  apply obj_get_is_Some. exists col. by apply filteredTasks_entry.
Qed.

Lemma cardIds_task (st : State) o :
  NoDup (Object_keys (tasks st)) → o ∈ cardIds st →
  ∃ k col task, obj_get (tasks st) k = Some col ∧ task ∈ col ∧ Task.id task = o.
Proof.
  intros Hnd Ho. unfold cardIds in Ho.
  apply list_elem_of_bind in Ho as (k & Ho & Hk).
  apply obj_get_is_Some in Hk as [col Hcol]. rewrite Hcol in Ho. simpl in Ho.
  apply list_elem_of_fmap in Ho as (task & -> & Htask).
  exists k, col, task. split_and!; [|done..]. by apply filteredTasks_entry.
Qed.

Lemma obj_set_keys {V} (o : Obj V) k v :
  is_Some (obj_get o k) → Object_keys (obj_set o k v) = Object_keys o.
Proof. intros H. rewrite obj_set_old by done. apply obj_replace_keys. Qed.

(** X6. Whatever is dragged, a drop on a column or a card that the
    board renders returns and leaves the board with its three columns:
    no column is added, removed or moved. *)
Theorem drop_keeps_columns (a o : Id) (st : State) :
  Object_keys (tasks st) = columnKey <$> [ToDo; InProgress; Completed] →
  o ∈ columnIds st ++ cardIds st →
  ∃ st', handleDragEnd {| active := a; over := Some o |} st = Normal st' ∧
         Object_keys (tasks st') = columnKey <$> [ToDo; InProgress; Completed].
Proof.
  intros Hkeys Ho.
  assert (Hnd : NoDup (Object_keys (tasks st))).
  { rewrite Hkeys. apply (bool_decide_unpack _). vm_compute. exact I. }
  assert (Hcols : hasColumns (tasks st)).
  { intros c. apply obj_get_is_Some. rewrite Hkeys.
    apply list_elem_of_fmap_2.
    destruct c; apply (bool_decide_unpack _); vm_compute; exact I. }
  assert (Htgt : ToString (targetColumnOf (tasks st) o) ∈ Object_keys (tasks st)).
  { unfold targetColumnOf.
    destruct (columnOf (tasks st) o) as [c'|] eqn:Hc'.
    - apply Array_find_Some in Hc' as [Hin _].
      assert (truthy (IdStr c') = true) as ->; [|done].
      rewrite Hkeys in Hin.
      repeat (apply elem_of_cons in Hin as [->|Hin]); try done.
      by apply elem_of_nil in Hin.
    - apply elem_of_app in Ho as [Ho|Ho].
      + by destruct (columnIds_key st o Hnd Ho) as (k & -> & Hk).
      + destruct (cardIds_task st o Hnd Ho) as (k & col & task & Hk & Htask & Hid).
        pose proof (columnOf_None _ _ _ _ Hc' Hk) as Hall.
        rewrite Forall_forall in Hall. by destruct (Hall task Htask). }
  destruct (handleDragEnd_cases {| active := a; over := Some o |} st Hcols)
    as [->|[(o' & Hover & Hinh & _)|
            (o' & c & source & moved & Hover & _ & Hsrc & _ & Hget & _ & ->)]].
  { by exists st. }
  { injection Hover as <-. apply obj_get_is_Some in Htgt.
    by destruct (own_not_inherited _ _ Htgt). }
  injection Hover as <-. eexists. split; [done|]. simpl.
  rewrite obj_set_keys.
  - rewrite obj_set_keys by eauto. done.
  - rewrite obj_get_set. case_decide; [eauto|]. by apply obj_get_is_Some.
Qed.

Lemma drop_keeps_columns_witness :
  ∃ st',
    handleDragEnd {| active := IdNum 2; over := Some (IdNum 3) |} loaded = Normal st' ∧
    Object_keys (tasks st') = ["To Do"; "In Progress"; "Completed"].
Proof.
  apply (drop_keeps_columns (IdNum 2) (IdNum 3) loaded).
  - reflexivity.
  - decide_it.
Defined.


(** X7. While a column filter is on, a card that is shown, dropped on
    anything that is shown, leaves the state as it is. *)
Theorem drop_under_filter_does_nothing cols c (a o : Id) (st : State) :
  tasks st = boardOf cols → uniqueIds (boardOf cols) →
  taskStatusFilter st = columnKey c →
  (∀ task, task ∈ allTasks (boardOf cols) → Task.id task ≠ IdStr (columnKey c)) →
  a ∈ cardIds st → o ∈ columnIds st ++ cardIds st →
  handleDragEnd {| active := a; over := Some o |} st = Normal st.
Proof.
  intros Hst Huniq Hf Hfresh Ha Ho.
  assert (Hview : filteredTasks st = [(columnKey c, cols c)]).
  { rewrite filteredTasks_one.
    - by rewrite Hf, Hst, boardOf_get.
    - rewrite Hst. apply (bool_decide_unpack _). vm_compute. exact I.
    - rewrite Hf. by destruct c. }
  assert (Hcards : cardIds st = Task.id <$> cols c).
  { unfold cardIds. rewrite Hview. simpl.
    rewrite obj_get_cons, decide_True by done. simpl. by rewrite app_nil_r. }
  assert (Hcolumns : columnIds st = [IdStr (columnKey c)]).
  { unfold columnIds. by rewrite Hview. }
  rewrite Hcards in Ha. apply list_elem_of_fmap in Ha as (T & -> & HT).
  apply (handleDragEnd_within cols c T o st Hst Huniq HT).
  rewrite Hcards, Hcolumns in Ho. apply elem_of_cons in Ho as [->|Ho].
  - by left.
  - right. simpl in Ho. apply list_elem_of_fmap in Ho as (U & -> & HU). by exists U.
Qed.

Lemma drop_under_filter_does_nothing_witness :
  handleDragEnd {| active := IdNum 2; over := Some (IdStr "In Progress") |}
    (setTaskStatusFilter "In Progress" loaded)
  = Normal (setTaskStatusFilter "In Progress" loaded).
Proof.
  apply (drop_under_filter_does_nothing sampleCols InProgress).
  - reflexivity.
  - decide_it.
  - reflexivity.
  - apply Forall_forall. decide_it.
  - decide_it.
  - decide_it.
Defined.


(** ** Mounting again *)

(** X8. When the component is mounted again after a drop that moved a
    task, it shows the tasks of the board before the drop, put into
    columns by their progress; a board that was built from stored tasks
    comes back as it was before the drop. *)
Theorem remount_after_drop today tomorrowStr event st st' :
  hasColumns (tasks st) → handleDragEnd event st = Normal st' → st' ≠ st →
  ∃ before st'',
    flatTasks (tasks st) = Normal before ∧
    loadTasks today tomorrowStr (initial (localStorage st')) = Normal (Some st'') ∧
    tasks st'' = categorizedTasks before ∧
    (∀ storedTasks, tasks st = categorizedTasks storedTasks → tasks st'' = tasks st).
Proof.
  intros Hcols Hrun Hne.
  destruct (handleDragEnd_writes _ _ _ Hcols Hrun) as [->|Hls]; [done|].
  eexists _, _. split_and!.
  - by apply flatTasks_Normal.
  - apply loadTasks_stored. simpl. rewrite Hls. apply lookup_insert_eq.
  - by destruct (checkDeadlines_toasts today tomorrowStr
        (column (tasks st) ToDo ++ column (tasks st) InProgress ++
         column (tasks st) Completed)
        (setTasks (categorizedTasks (column (tasks st) ToDo ++
           column (tasks st) InProgress ++ column (tasks st) Completed))
           (initial (localStorage st')))) as (_ & _ & -> & _).
  - intros storedTasks Hbuilt.
    destruct (checkDeadlines_toasts today tomorrowStr
        (column (tasks st) ToDo ++ column (tasks st) InProgress ++
         column (tasks st) Completed)
        (setTasks (categorizedTasks (column (tasks st) ToDo ++
           column (tasks st) InProgress ++ column (tasks st) Completed))
           (initial (localStorage st')))) as (_ & _ & -> & _).
    simpl. rewrite Hbuilt. apply categorizedTasks_rebuild.
    rewrite <- Hbuilt. by apply flatTasks_Normal.
Qed.

Lemma remount_after_drop_witness :
  ∃ st'',
    loadTasks "2024-05-01" "2024-05-02" (initial (localStorage movedSample))
      = Normal (Some st'') ∧
    tasks st'' = tasks loaded.
Proof.
  destruct (remount_after_drop "2024-05-01" "2024-05-02"
              {| active := IdNum 2; over := Some (IdStr "Completed") |}
              loaded movedSample)
    as (before & st'' & _ & Hload & _ & Hback).
  - exact (boardOf_hasColumns sampleCols).
  - vm_compute. reflexivity.
  - intros Heq. apply (f_equal (λ s, length (column (tasks s) Completed))) in Heq.
    vm_compute in Heq. discriminate Heq.
  - exists st''. split; [done|]. by apply (Hback [task1; task2; task3]).
Defined.


Lemma string_app_nil_r (s : string) : s +:+ EmptyString = s.
Proof. induction s as [|c s IH]; [done|]. exact (f_equal (String c) IH). Qed.

Lemma parse_taskText (task : Task.t) :
  JSON.parse (stringify (task_to_json task)) = Normal (task_to_json task).
Proof.
  unfold JSON.parse. rewrite lex_lex_run.
  rewrite <- (string_app_nil_r (stringify (task_to_json task))), lex_run_task.
  destruct task as [[n|s] ttl p [d|]]; reflexivity.
Qed.

(** X9. A stored text that is JSON for a truthy value other than an
    array makes the effect on mounting throw a [TypeError]; so does the
    text of one task that is stored without an array around it. *)
Theorem loadTasks_not_array today tomorrowStr st text :
  localStorage st !! "tasks" = Some text →
  (∃ v, JSON.parse text = Normal v ∧ json_truthy v = true ∧ ∀ elems, v ≠ JArr elems) ∨
  (∃ task, text = stringify (task_to_json task)) →
  loadTasks today tomorrowStr st = Throw TypeError.
Proof.
  intros Hls Htext.
  assert (∃ v, JSON.parse text = Normal v ∧ json_truthy v = true ∧
               ∀ elems, v ≠ JArr elems) as (v & Hparse & Htruthy & Hv).
  { destruct Htext as [H|[task ->]]; [done|].
    exists (task_to_json task). by rewrite parse_taskText. }
  unfold loadTasks, loadAll, getItem.
  rewrite Hls. simpl. rewrite Hparse. simpl. rewrite Htruthy.
  destruct v; try done. by destruct (Hv elems).
Qed.

Lemma loadTasks_not_array_witness :
  loadTasks "2024-05-01" "2024-05-02" (initial {[ "tasks" := "{}" ]}) = Throw TypeError ∧
  loadTasks "2024-05-01" "2024-05-02"
    (initial {[ "tasks" := stringify (task_to_json task1) ]}) = Throw TypeError.
Proof.
  split.
  - apply (loadTasks_not_array _ _ _ "{}"); [reflexivity|].
    left. exists (JObj []). split_and!; [by vm_compute|done|done].
  - apply (loadTasks_not_array _ _ _ (stringify (task_to_json task1))).
    + apply lookup_singleton_eq.
    + right. by exists task1.
Defined.

Lemma checkDeadlines_filter today tomorrowStr (l : list Task.t) st :
  taskStatusFilter (checkDeadlines today tomorrowStr l st) = taskStatusFilter st.
Proof.
  revert st. induction l as [|task l IH]; intros st; [done|].
  rewrite checkDeadlines_cons, IH. by repeat case_decide.
Qed.

(** X10. The effect on mounting reads the storage and does not write it:
    when it returns, storage and filter are as before, the board has its
    three columns, the toasts shown before are still there, and the
    sound was played once for each new toast. *)
Theorem loadTasks_reads_only today tomorrowStr st st' :
  loadTasks today tomorrowStr st = Normal (Some st') →
  localStorage st' = localStorage st ∧
  taskStatusFilter st' = taskStatusFilter st ∧
  hasColumns (tasks st') ∧
  ∃ shown, toasts st' = toasts st ++ shown ∧
           plays st' = plays st + length shown.
Proof.
  unfold loadTasks. destruct (loadAll (localStorage st)) as [v|]; [|done].
  simpl. destruct v as [| | | |elems|]; try done.
  destruct (mapM task_of_json elems) as [l|]; [|done]. simpl.
  intros [= <-].
  destruct (checkDeadlines_toasts today tomorrowStr l
              (setTasks (categorizedTasks l) st)) as (Ht & Hp & Hb & Hl).
  rewrite Hl, Hb, checkDeadlines_filter. split_and!; try done.
  - apply categorizedTasks_hasColumns.
  - by eexists.
Qed.

Lemma loadTasks_reads_only_witness :
  ∃ st',
    loadTasks "2024-05-01" "2024-05-02" (initial (localStorage movedSample))
      = Normal (Some st') ∧
    localStorage st' = localStorage movedSample ∧
    ∃ shown, toasts st' = shown ∧ plays st' = length shown.
Proof.
  eexists. split; [vm_compute; reflexivity|].
  match goal with |- context [localStorage ?s = _] =>
    destruct (loadTasks_reads_only "2024-05-01" "2024-05-02"
                (initial (localStorage movedSample)) s)
      as (Hls & _ & _ & shown & Ht & Hp) end.
  - vm_compute. reflexivity.
  - split; [exact Hls|]. exists shown. by split.
Defined.





(** X12. A drop leaves the filter, the toasts and the count of sounds
    as they are, and changes no key of the storage but [tasks]. *)
Theorem drop_leaves_rest event st st' :
  handleDragEnd event st = Normal st' →
  taskStatusFilter st' = taskStatusFilter st ∧
  toasts st' = toasts st ∧ plays st' = plays st ∧
  ∀ k, k ≠ "tasks" → localStorage st' !! k = localStorage st !! k.
Proof.
  unfold handleDragEnd.
  destruct (over event) as [o|]; [|by intros [= <-]].
  case_decide; [by intros [= <-]|].
  destruct (columnOf _ _) as [c|]; [|by intros [= <-]].
  destruct (_ || _); [by intros [= <-]|].
  destruct (moveTask _ _ _ _) as [b|]; [|done]. simpl.
  destruct (flatTasks _) as [flat|]; [|done]. simpl.
  intros [= <-]. simpl. split_and!; try done.
  intros k Hk. by rewrite lookup_insert_ne.
Qed.

Lemma drop_leaves_rest_witness :
  ∃ st',
    handleDragEnd {| active := IdNum 2; over := Some (IdStr "Completed") |} notedSample
      = Normal st' ∧
    taskStatusFilter st' = "all" ∧
    localStorage st' !! "notes" = Some "call the printer".
Proof.
  eexists. split; [vm_compute; reflexivity|].
  match goal with |- context [taskStatusFilter ?s = _] =>
    destruct (drop_leaves_rest
                {| active := IdNum 2; over := Some (IdStr "Completed") |}
                notedSample s) as (Hf & _ & _ & Hk) end.
  - vm_compute. reflexivity.
  - split; [exact Hf|]. by rewrite Hk.
Defined.

(** ** Authentication *)

Import Auth.

Lemma item_insert ls k k' s :
  item (<[k := s]> ls) k' = if decide (k = k') then VStr s else item ls k'.
Proof.
  unfold item. rewrite lookup_insert. by destruct (decide (k = k')).
Qed.

Lemma item_delete ls k k' :
  item (delete k ls) k' = if decide (k = k') then VNull else item ls k'.
Proof.
  unfold item. rewrite lookup_delete. by destruct (decide (k = k')).
Qed.

Lemma valString_nonempty v : v ≠ VStr EmptyString → valString v ≠ EmptyString.
Proof. destruct v as [| |s]; simpl; [done|done|congruence]. Qed.

Lemma checkAuth_initial_user ls :
  user (checkAuth (Auth.initial ls)) =
  if valTruthy (item ls "token") && valTruthy (item ls "email")
  then Some (storedUser ls) else None.
Proof.
  unfold checkAuth, Auth.initial. simpl.
  by destruct (valTruthy (item ls "token")), (valTruthy (item ls "email")).
Qed.

Lemma checkAuth_initial_storage ls :
  storage (checkAuth (Auth.initial ls)) =
  if valTruthy (item ls "token") && negb (valTruthy (item ls "email"))
  then delete "email" (delete "userId" (delete "userRole" (delete "token" ls)))
  else ls.
Proof.
  unfold checkAuth, Auth.initial. simpl.
  by destruct (valTruthy (item ls "token")), (valTruthy (item ls "email")).
Qed.

Lemma checkAuth_loading st : loading (checkAuth st) = false.
Proof. reflexivity. Qed.

(** X13. After a logout there is no user, no role holds, no header is
    sent, a provider mounted on the storage has no user either, and
    every key of the storage but the four of the login is as before. *)
Theorem logout_clears (st : Auth.State) :
  user (handleLogout st) = None ∧
  isAuthenticated (handleLogout st) = false ∧
  (∀ s, hasRole (VStr s) (handleLogout st) = false) ∧
  getAuthHeader (storage (handleLogout st)) = [] ∧
  user (checkAuth (Auth.initial (storage (handleLogout st)))) = None ∧
  (∀ k, k ∉ ["token"; "userRole"; "userId"; "email"] →
     storage (handleLogout st) !! k = storage st !! k).
Proof.
  assert (Htoken : item (storage (handleLogout st)) "token" = VNull).
  { unfold handleLogout. simpl. by rewrite !item_delete. }
  assert (Hrole : item (storage (handleLogout st)) "userRole" = VNull).
  { unfold handleLogout. simpl. by rewrite !item_delete. }
  split_and!.
  - done.
  - done.
  - intros s. unfold hasRole. rewrite Hrole. by apply bool_decide_eq_false_2.
  - unfold getAuthHeader. by rewrite Htoken.
  - by rewrite checkAuth_initial_user, Htoken.
  - intros k Hk. unfold handleLogout. simpl.
    rewrite !not_elem_of_cons in Hk. destruct Hk as (? & ? & ? & ? & _).
    by rewrite !lookup_delete_ne.
Qed.

(** X14. After a login that the server accepted, with an email and a
    token field that are not the empty string, a provider mounted on the
    storage is done loading, leaves the storage as it is and has the
    user of the login, each field as the string it was stored as. *)
Theorem login_survives_reload (email : Val) (data : Data.t) (st : Auth.State) :
  Data.token data ≠ VStr EmptyString → email ≠ VStr EmptyString →
  ∃ st',
    login email (Received true data) st = (Returned data, st') ∧
    user st' = Some (User.mk email (Data.role data) (Data.userId data)) ∧
    user (checkAuth (Auth.initial (storage st'))) =
      Some (User.mk (VStr (valString email)) (VStr (valString (Data.role data)))
                    (VStr (valString (Data.userId data)))) ∧
    loading (checkAuth (Auth.initial (storage st'))) = false ∧
    storage (checkAuth (Auth.initial (storage st'))) = storage st'.
Proof.
  intros Htoken Hemail. eexists. split; [reflexivity|]. split; [reflexivity|].
  assert (Ht : valTruthy (item (<["email":=valString email]>
            (<["userId":=valString (Data.userId data)]>
               (<["userRole":=valString (Data.role data)]>
                  (<["token":=valString (Data.token data)]> (storage st))))) "token") = true).
  { rewrite !item_insert. simpl. apply bool_decide_eq_true_2.
    by apply valString_nonempty. }
  assert (He : valTruthy (item (<["email":=valString email]>
            (<["userId":=valString (Data.userId data)]>
               (<["userRole":=valString (Data.role data)]>
                  (<["token":=valString (Data.token data)]> (storage st))))) "email") = true).
  { rewrite !item_insert. simpl. apply bool_decide_eq_true_2.
    by apply valString_nonempty. }
  rewrite checkAuth_initial_user, checkAuth_initial_storage.
  cbn [storage setUser Auth.setItem user loading]. rewrite Ht, He. simpl.
  split_and!; try done.
  unfold storedUser. by rewrite !item_insert.
Qed.

Lemma login_survives_reload_witness :
  ∃ st',
    login (VStr "ann@example.org") (Received true sampleData) (Auth.initial ∅)
      = (Returned sampleData, st') ∧
    user (checkAuth (Auth.initial (storage st'))) = user st'.
Proof.
  destruct (login_survives_reload (VStr "ann@example.org") sampleData (Auth.initial ∅))
    as (st' & Hrun & Huser & Hagain & _); [done|done|].
  exists st'. split; [done|]. by rewrite Hagain, Huser.
Defined.


(** X15. After mounting, the provider is done loading; it has a user
    exactly when the storage held a token and an email, and then the
    user is the stored one and the storage is untouched; a token is left
    in the storage only with a user; without a token the storage is
    untouched; mounting again on the result changes nothing. *)
Theorem mount_repairs_storage (ls : gmap string string) :
  loading (checkAuth (Auth.initial ls)) = false ∧
  (isAuthenticated (checkAuth (Auth.initial ls)) = true ↔
     valTruthy (item ls "token") = true ∧ valTruthy (item ls "email") = true) ∧
  (isAuthenticated (checkAuth (Auth.initial ls)) = true →
     user (checkAuth (Auth.initial ls)) = Some (storedUser ls) ∧
     storage (checkAuth (Auth.initial ls)) = ls) ∧
  (valTruthy (item (storage (checkAuth (Auth.initial ls))) "token") = true →
     isAuthenticated (checkAuth (Auth.initial ls)) = true) ∧
  (valTruthy (item ls "token") = false →
     storage (checkAuth (Auth.initial ls)) = ls) ∧
  checkAuth (Auth.initial (storage (checkAuth (Auth.initial ls)))) =
    checkAuth (Auth.initial ls).
Proof.
  unfold isAuthenticated.
  rewrite checkAuth_initial_user, checkAuth_initial_storage.
  unfold checkAuth, Auth.initial. simpl.
  destruct (valTruthy (item ls "token")) eqn:Ht,
           (valTruthy (item ls "email")) eqn:He; simpl;
    rewrite ?item_delete; simpl; rewrite ?Ht, ?He; simpl;
    split_and!; try done; try (split; [done|by intros [? ?]]).
  all: try by intros [??].
Qed.

(** X16. When [fetch] rejects, the response is not ok, or its body is
    [null], login and signup throw and leave user and storage as they
    are.  For a response that is not ok the error carries the message of
    the body, or the default of the call when the body has none; a body
    that is [null] gives the [TypeError] of the read off it. *)
Theorem failed_login_changes_nothing (email role : Val) (response : Response)
    (st : Auth.State) :
  response = NoResponse ∨ (∃ data, response = Received false data) ∨
  (∃ ok, response = ReceivedNull ok) →
  (∃ f, login email response st = (Thrown f, st)) ∧
  (∃ f, signup email role response st = (Thrown f, st)) ∧
  (response = NoResponse →
     login email response st = (Thrown Rejected, st) ∧
     signup email role response st = (Thrown Rejected, st)) ∧
  (∀ data message, response = Received false data →
     Data.message data = VStr message → message ≠ EmptyString →
     login email response st = (Thrown (ErrorMessage message), st) ∧
     signup email role response st = (Thrown (ErrorMessage message), st)) ∧
  (∀ data, response = Received false data →
     valTruthy (Data.message data) = false →
     login email response st = (Thrown (ErrorMessage "Login failed"), st) ∧
     signup email role response st =
       (Thrown (ErrorMessage "Registration failed"), st)) ∧
  (∀ ok, response = ReceivedNull ok →
     login email response st = (Thrown NullRead, st) ∧
     signup email role response st = (Thrown NullRead, st)).
Proof.
  intros [->|[[data ->]|[ok ->]]]; split_and!;
    try (by eexists); try done.
  - intros data' message [= <-] Hm Hne.
    unfold login, signup, authAPI_login, authAPI_register, reply. simpl.
    rewrite Hm. simpl. by rewrite bool_decide_eq_true_2.
  - intros data' [= <-] Hm.
    unfold login, signup, authAPI_login, authAPI_register, reply.
    simpl. by rewrite Hm.
  - destruct ok; by eexists.
  - destruct ok; by eexists.
  - intros ok' [= <-]. by destruct ok.
Qed.

Lemma failed_login_changes_nothing_witness :
  login (VStr "ann@example.org") (Received false refusal) (Auth.initial ∅)
    = (Thrown (ErrorMessage "Invalid credentials"), Auth.initial ∅) ∧
  signup (VStr "ann@example.org") VUndefined (Received false refusal) (Auth.initial ∅)
    = (Thrown (ErrorMessage "Invalid credentials"), Auth.initial ∅) ∧
  signup (VStr "ann@example.org") VUndefined NoResponse (Auth.initial ∅)
    = (Thrown Rejected, Auth.initial ∅) ∧
  login (VStr "ann@example.org") (ReceivedNull true) (Auth.initial ∅)
    = (Thrown NullRead, Auth.initial ∅).
Proof.
  split_and!.
  - destruct (failed_login_changes_nothing (VStr "ann@example.org") VUndefined
                (Received false refusal) (Auth.initial ∅)) as (_ & _ & _ & H & _).
    + right. left. by exists refusal.
    + by apply (H refusal "Invalid credentials").
  - destruct (failed_login_changes_nothing (VStr "ann@example.org") VUndefined
                (Received false refusal) (Auth.initial ∅)) as (_ & _ & _ & H & _).
    + right. left. by exists refusal.
    + by apply (H refusal "Invalid credentials").
  - destruct (failed_login_changes_nothing (VStr "ann@example.org") VUndefined
                NoResponse (Auth.initial ∅)) as (_ & _ & H & _); [by left|].
    by apply H.
  - destruct (failed_login_changes_nothing (VStr "ann@example.org") VUndefined
                (ReceivedNull true) (Auth.initial ∅)) as (_ & _ & _ & _ & _ & H).
    + right. right. by exists true.
    + by apply (H true).
Defined.


(** X17. After a signup the role that [hasRole] confirms is the role
    that was asked for ([user] by default), whatever the reply says;
    after a login it is the role of the reply. *)
Theorem role_after_signup_and_login (email role : Val) (data : Data.t)
    (st : Auth.State) (r : Val) :
  (hasRole r (signup email role (Received true data) st).2 = true ↔
     r = VStr (valString (match role with VUndefined => VStr "user" | _ => role end))) ∧
  (isAdmin (signup email role (Received true data) st).2 = true ↔
     role = VStr "admin") ∧
  (hasRole r (login email (Received true data) st).2 = true ↔
     r = VStr (valString (Data.role data))) ∧
  (isAdmin (login email (Received true data) st).2 = true ↔
     Data.role data = VStr "admin").
Proof.
  unfold isAdmin, hasRole, signup, login. simpl. rewrite !item_insert. simpl.
  rewrite !bool_decide_eq_true.
  split_and!.
  - split; congruence.
  - destruct role as [| |s]; simpl; split; try done; try congruence.
  - split; congruence.
  - destruct (Data.role data) as [| |s]; simpl; split; try done; congruence.
Qed.

Lemma obj_get_spread {V} (target source : Obj V) k :
  NoDup (Object_keys source) →
  obj_get (spread target source) k =
  match obj_get source k with Some v => Some v | None => obj_get target k end.
Proof.
  unfold spread, Object_keys. revert target.
  induction source as [|[k0 v0] source IH]; intros target Hnd; [done|].
  rewrite fmap_cons in Hnd. apply NoDup_cons in Hnd as [Hk0 Hnd].
  simpl. rewrite IH by done. rewrite obj_get_set, obj_get_cons.
  destruct (decide (k0 = k)) as [->|Hne]; [|done].
  apply (obj_get_None k source) in Hk0. by rewrite Hk0.
Qed.

(** X18. In the object of headers that [fetchWithAuth] hands to [fetch],
    whatever headers the caller passes, the property [Content-Type] is
    [application/json]; the property [Authorization] is [Bearer] with
    the stored token when there is one, and the caller's otherwise; the
    property of any other name is the caller's.  Names are those of
    properties, in their exact spelling: a header the caller passes as
    [content-type] is another property and is kept. *)
Theorem fetch_headers (optionsHeaders : option (Obj string))
    (ls : gmap string string) :
  NoDup (Object_keys (default [] optionsHeaders)) →
  obj_get (fetchHeaders optionsHeaders ls) "Content-Type" = Some "application/json" ∧
  (∀ t, ls !! "token" = Some t → t ≠ EmptyString →
     obj_get (fetchHeaders optionsHeaders ls) "Authorization" =
       Some ("Bearer " +:+ t)) ∧
  (valTruthy (item ls "token") = false →
     obj_get (fetchHeaders optionsHeaders ls) "Authorization" =
       obj_get (default [] optionsHeaders) "Authorization") ∧
  (∀ k, k ≠ "Content-Type" → k ≠ "Authorization" →
     obj_get (fetchHeaders optionsHeaders ls) k =
       obj_get (default [] optionsHeaders) k) ∧
  (obj_get (fetchHeaders optionsHeaders ls) "content-type" =
     obj_get (default [] optionsHeaders) "content-type" ∧
   obj_get (fetchHeaders optionsHeaders ls) "authorization" =
     obj_get (default [] optionsHeaders) "authorization").
Proof.
  intros Hnd.
  assert (Hauth : NoDup (Object_keys (getAuthHeader ls))).
  { unfold getAuthHeader. destruct (valTruthy _); [|constructor].
    apply (bool_decide_unpack _). vm_compute. exact I. }
  assert (Hother : ∀ k, k ≠ "Content-Type" → k ≠ "Authorization" →
     obj_get (fetchHeaders optionsHeaders ls) k =
       obj_get (default [] optionsHeaders) k).
  { intros k Hct Ha. unfold fetchHeaders.
    rewrite obj_get_set, decide_False by done.
    rewrite !obj_get_spread by done.
    assert (obj_get (getAuthHeader ls) k = None) as ->.
    { unfold getAuthHeader. destruct (valTruthy _); [|done].
      change (obj_set [] "Authorization" ?v) with [("Authorization", v)].
      by rewrite obj_get_cons, decide_False. }
    by destruct (obj_get (default [] optionsHeaders) k). }
  split_and!.
  - unfold fetchHeaders. by rewrite obj_get_set, decide_True.
  - intros t Ht Hne. unfold fetchHeaders.
    rewrite obj_get_set, decide_False by done.
    rewrite obj_get_spread by done. unfold getAuthHeader, item. rewrite Ht. simpl.
    by rewrite bool_decide_eq_true_2.
  - intros Hfalse. unfold fetchHeaders.
    rewrite obj_get_set, decide_False by done.
    rewrite !obj_get_spread by done. unfold getAuthHeader. rewrite Hfalse. simpl.
    by destruct (obj_get (default [] optionsHeaders) "Authorization").
  - exact Hother.
  - by apply Hother.
  - by apply Hother.
Qed.

Lemma fetch_headers_witness :
  obj_get (fetchHeaders (Some sampleHeaders) {[ "token" := "t0k3n" ]}) "Content-Type"
    = Some "application/json" ∧
  obj_get (fetchHeaders (Some sampleHeaders) {[ "token" := "t0k3n" ]}) "Authorization"
    = Some "Bearer t0k3n" ∧
  obj_get (fetchHeaders (Some sampleHeaders) {[ "token" := "t0k3n" ]}) "Accept"
    = Some "text/html" ∧
  obj_get (fetchHeaders (Some sampleHeaders) {[ "token" := "t0k3n" ]}) "content-type"
    = Some "text/plain".
Proof.
  destruct (fetch_headers (Some sampleHeaders) {[ "token" := "t0k3n" ]})
    as (H1 & H2 & _ & H4 & H5 & _).
  - decide_it.
  - split_and!; [exact H1|by apply H2|by rewrite H4|by rewrite H5].
Defined.
